(** * Smart consensus engine (src/smart_consensus.py)

    A shallow embedding of [SmartConsensusEngine] and the properties its
    specification states about it.

    Conventions of the embedding.
    - A Python [str] is a list of Unicode code points ([list N]).
    - A Python [float] that is a score, a similarity or a penalty is an exact
      rational ([Q]); results are compared with [==] and rounding is left
      out.  The values read from the entities are a [number]: a rational or
      [inf], which [float] gives for a long run of digits; a run that is
      too small gives [0.0].  NaN only arises inside the loop over the values,
      where its effect is written out.
    - The tables of the Unicode character database that [re] and [str] consult
      ([\w], [\d], [str.lower]) are not part of the repository; they are the
      class [Unicode].  [\s] and [str.strip] use the whitespace table of
      CPython, which is written out.
    - The sentence encoder, [sklearn]'s [cosine_similarity] and the spaCy
      pipeline are the class [Models]; each may raise, which is [None].
    - [self.cache] is a [gmap] from cache keys to embeddings, threaded through
      the calls that read or write it.
    - [main] takes [json.loads] as a parameter and the loading of the models
      as an option; what it prints and how it exits is an [outcome]. *)

From Stdlib Require Import QArith Qminmax Qabs Qround Lqa Lia List Permutation.
From Stdlib Require Import String Ascii DecimalString.
From Stdlib Require DecimalNat DecimalFacts.
From stdpp Require Import base option list gmap.
Import ListNotations.

Set Default Proof Using "Type".

(** ** Strings *)

Abbreviation str := (list N).

(** An ASCII literal as a [str]. *)
Fixpoint lit (s : string) : list N :=
  match s with
  | EmptyString => []
  | String c r => N_of_ascii c :: lit r
  end.

(** [str(n)] for a length [n]. *)
Definition str_of_nat (n : nat) : list N :=
  lit (NilZero.string_of_uint (Nat.to_uint n)).

Definition N_in (c : N) (l : list N) : bool := existsb (N.eqb c) l.

(** The code points for which [str.isspace] holds; [\s] and [str.strip]
    both use it. *)
Definition isspace (c : N) : bool :=
  ((9 <=? c) && (c <=? 13) || (28 <=? c) && (c <=? 32) ||
   N_in c [133; 160; 5760; 8232; 8233; 8239; 8287; 12288] ||
   (8192 <=? c) && (c <=? 8202))%N.

(** The Unicode tables used by the regular expressions and by [str.lower]. *)
Class Unicode := {
  isalnum : N -> bool;            (* str.isalnum on one code point *)
  decimal : N -> option N;        (* unicodedata.decimal, a digit value *)
  lower : list N -> list N        (* str.lower *)
}.

(** The tables restricted to ASCII, for concrete runs. *)
Definition ascii_isalnum (c : N) : bool :=
  ((48 <=? c) && (c <=? 57) || (65 <=? c) && (c <=? 90) ||
   (97 <=? c) && (c <=? 122))%N.
Definition ascii_decimal (c : N) : option N :=
  if ((48 <=? c) && (c <=? 57))%N then Some (c - 48)%N else None.
Definition ascii_lower_char (c : N) : N :=
  if ((65 <=? c) && (c <=? 90))%N then (c + 32)%N else c.
Definition ascii_tables : Unicode :=
  {| isalnum := ascii_isalnum;
     decimal := ascii_decimal;
     lower := map ascii_lower_char |}.

(** ** Numbers *)

(** The values the entity stage compares are never negative: a year is an
    integer and a number is what [float] gives for a run of digits and dots,
    which is [inf] when the run is too large. *)
Inductive number : Type :=
  | Finite (q : Q)
  | Infinity.

(** [float] rounds to the nearest double.  A value of at least
    [2^1024 - 2^970], halfway between the largest double and [2^1024], gives
    [inf]; a value of at most [2^-1075], half the smallest positive double,
    gives [0.0].  In between the rounding is left out. *)
Definition float_overflow : Q := inject_Z (2 ^ 1024 - 2 ^ 970).

Definition float_underflow : Q := 1 # (2 ^ 1075).

Definition round_float (x : Q) : number :=
  if Qle_bool float_overflow x then Infinity
  else if Qle_bool x float_underflow then Finite 0
  else Finite x.

(** The values of the entity stage are not negative. *)
Definition nonneg (n : number) : Prop :=
  match n with
  | Finite q => (0 <= q)%Q
  | Infinity => True
  end.


(** Lists of finite values; the years, which are integers, are such. *)
Definition finite_values (number_lists : list (list Q)) : list (list number) :=
  map (map Finite) number_lists.

(** ** The regular expressions of the module *)

Section Regex.
Context {U : Unicode}.

(** [\w] *)
Definition is_word (c : N) : bool := isalnum c || (c =? 95)%N.

(** [\d] *)
Definition is_digit (c : N) : bool :=
  match decimal c with Some _ => true | None => false end.

Definition word_at (o : option N) : bool :=
  match o with Some c => is_word c | None => false end.

(** [\b] between the character before the position and the one at it. *)
Definition boundary (prev cur : option N) : bool :=
  xorb (word_at prev) (word_at cur).

Fixpoint starts_with (w s : list N) : bool :=
  match w, s with
  | [], _ => true
  | a :: w', b :: s' => (a =? b)%N && starts_with w' s'
  | _ :: _, [] => false
  end.

(** Length of the match of [\b(w1|w2|...)\b] at the head of [s], where
    [prev] is the character before it: the first alternative that fits. *)
Fixpoint match_here (alts : list (list N)) (prev : option N) (s : list N)
  : option nat :=
  match alts with
  | [] => None
  | w :: alts' =>
      if starts_with w s
         && boundary (List.last (map Some w) prev) (head (skipn (length w) s))
      then Some (length w)
      else match_here alts' prev s
  end.

(** [len(re.findall(r'\b(w1|w2|...)\b', s))]: the scan moves one character
    at a time and jumps over each match ([skip] counts the characters of the
    current match still to pass). *)
Fixpoint findall_from (alts : list (list N)) (prev : option N) (skip : nat)
  (s : list N) : nat :=
  match s with
  | [] => 0
  | c :: rest =>
      match skip with
      | S k => findall_from alts (Some c) k rest
      | O =>
          if boundary prev (Some c) then
            match match_here alts prev s with
            | Some len => S (findall_from alts (Some c) (len - 1) rest)
            | None => findall_from alts (Some c) 0 rest
            end
          else findall_from alts (Some c) 0 rest
      end
  end.

Definition findall_count (alts : list (list N)) (s : list N) : nat :=
  findall_from alts None 0 s.

(** [re.sub(r'[cls]+', repl, s)]: every maximal run of [cls] becomes [repl]. *)
Fixpoint sub_runs (cls : N -> bool) (repl : list N) (in_run : bool)
  (s : list N) : list N :=
  match s with
  | [] => []
  | c :: rest =>
      if cls c then
        (if in_run then [] else repl) ++ sub_runs cls repl true rest
      else c :: sub_runs cls repl false rest
  end.

(** [r'20\d{2}'] at the head of [s], and [int] of the match. *)
Definition year_here (s : list N) : option N :=
  match s with
  | 50%N :: 48%N :: d1 :: d2 :: _ =>
      match decimal d1, decimal d2 with
      | Some v1, Some v2 => Some (2000 + 10 * v1 + v2)%N
      | _, _ => None
      end
  | _ => None
  end.

(** [re.search(r'20\d{2}', s)] followed by [int] of the match. *)
Fixpoint search_year (s : list N) : option N :=
  match s with
  | [] => None
  | _ :: rest =>
      match year_here s with
      | Some y => Some y
      | None => search_year rest
      end
  end.

Fixpoint take_while (cls : N -> bool) (s : list N) : list N :=
  match s with
  | c :: rest => if cls c then c :: take_while cls rest else []
  | [] => []
  end.

Fixpoint drop_while (cls : N -> bool) (s : list N) : list N :=
  match s with
  | c :: rest => if cls c then drop_while cls rest else s
  | [] => []
  end.

(** [[\d.]] *)
Definition is_num_char (c : N) : bool := is_digit c || (c =? 46)%N.

(** [re.search(r'[\d.]+', s)]: the first maximal run of digits and dots. *)
Fixpoint search_num (s : list N) : option (list N) :=
  match s with
  | [] => None
  | c :: rest =>
      if is_num_char c then Some (take_while is_num_char s)
      else search_num rest
  end.

(** [int] of a run of digits. *)
Definition digits_value (s : list N) : N :=
  fold_left (fun acc c => (10 * acc + default 0 (decimal c))%N) s 0%N.

(** [float] of a run of digits and dots: digits with at most one dot and at
    least one digit; anything else is a [ValueError] ([None]).  The value
    of the run is rounded to a double. *)
Definition parse_float (s : list N) : option number :=
  let ip := take_while is_digit s in
  match drop_while is_digit s with
  | [] =>
      match ip with
      | [] => None
      | _ => Some (round_float (inject_Z (Z.of_N (digits_value ip))))
      end
  | dot :: fp =>
      if (dot =? 46)%N && forallb is_digit fp
         && negb (Nat.eqb (length ip + length fp) 0)
      then Some (round_float
                   (inject_Z (Z.of_N (digits_value ip))
                    + inject_Z (Z.of_N (digits_value fp))
                      / inject_Z (10 ^ Z.of_nat (length fp)))%Q)
      else None
  end.

(** [str.strip] *)
Definition strip (s : list N) : list N :=
  rev (drop_while isspace (rev (drop_while isspace s))).

(** [[*_#]] *)
Definition is_markup (c : N) : bool := N_in c [42; 95; 35]%N.

Definition _clean_text (text : list N) : list N :=
  (* Remove markdown formatting *)
  let text := sub_runs is_markup [] false text in
  (* Remove excessive whitespace *)
  let text := sub_runs isspace [32%N] false text in
  (* Limit length to avoid token limits *)
  let text := if (500 <? length text)%nat then firstn 500 text else text in
  strip text.

End Regex.

(** ** The models the engine is built on *)

Class Models := {
  Emb : Type;
  (* self.encoder.encode([text])[0] *)
  encode : list N -> option Emb;
  (* sklearn.metrics.pairwise.cosine_similarity *)
  cosine_similarity : list Emb -> option (list (list Q));
  (* self.nlp(text).ents, as pairs (ent.label_, ent.text) *)
  nlp : list N -> option (list (list N * list N))
}.

Fixpoint str_eqb (a b : list N) : bool :=
  match a, b with
  | [], [] => true
  | x :: a', y :: b' => (x =? y)%N && str_eqb a' b'
  | _, _ => false
  end.

Definition Qsum (l : list Q) : Q := fold_right Qplus 0%Q l.

(** [np.mean] of a non-empty list. *)
Definition mean (l : list Q) : Q :=
  (Qsum l / inject_Z (Z.of_nat (length l)))%Q.

(** [range(a, b)] *)
Definition range (a b : nat) : list nat := seq a (b - a).

Section Engine.
Context {U : Unicode} {M : Models}.

Definition cache_key (text : list N) : list N :=
  firstn 100 text ++ lit "_" ++ str_of_nat (length text).

(** [_get_embeddings], from a cache; returns the cache it leaves and the
    embeddings, or [None] when the encoder raised. *)
Fixpoint _get_embeddings (cache : gmap (list N) Emb) (texts : list (list N))
  : gmap (list N) Emb * option (list Emb) :=
  match texts with
  | [] => (cache, Some [])
  | text :: rest =>
      match cache !! cache_key text with
      | Some e =>
          let '(cache', r) := _get_embeddings cache rest in
          (cache', cons e <$> r)
      | None =>
          match encode (_clean_text text) with
          | None => (cache, None)
          | Some e =>
              let '(cache', r) :=
                _get_embeddings (<[cache_key text := e]> cache) rest in
              (cache', cons e <$> r)
          end
      end
  end.

(** The loops over [i < j] of [measure_consensus], reading
    [similarity_matrix[i][j]]; an index out of range raises. *)
Definition upper_triangle (similarity_matrix : list (list Q)) (n : nat)
  : option (list Q) :=
  @concat Q <$>
    mapM (fun i =>
            mapM (fun j => similarity_matrix !! i ≫= (.!! j))
                 (range (i + 1) n))
         (range 0 n).

(** *** Entities *)

Definition is_empty {A} (l : list A) : bool :=
  match l with [] => true | _ => false end.

(** One step of the loop over cross pairs [(n1, n2)].  When one of the two
    is [inf], [max(n1, n2)] is [inf] and not 0, [abs(n1 - n2)] is [inf] or
    nan, [rel_diff] is nan, and [max(0, 1 - rel_diff)] is its first argument
    0, since no comparison with nan holds. *)
Definition value_similarity (best_similarity : Q) (n1 n2 : number) : Q :=
  match n1, n2 with
  | Finite n1, Finite n2 =>
      if Qeq_bool (Qmax n1 n2) 0 then best_similarity
      else
        (* Calculate relative difference *)
        let rel_diff := (Qabs (n1 - n2) / Qmax n1 n2)%Q in
        let similarity := Qmax 0 (1 - rel_diff) in
        Qmax best_similarity similarity
  | _, _ =>
      let similarity := 0%Q in
      Qmax best_similarity similarity
  end.

(** The closest match between two lists of values. *)
Definition best_similarity (nums1 nums2 : list number) : Q :=
  fold_left
    (fun best n1 => fold_left (fun best n2 => value_similarity best n1 n2)
                              nums2 best)
    nums1 0%Q.

Definition _calculate_numeric_similarity (number_lists : list (list number))
  : Q :=
  if negb (existsb (fun numbers => negb (is_empty numbers)) number_lists)
  then 0%Q
  else
    (* Flatten all numbers *)
    let all_numbers := concat number_lists in
    if (length all_numbers <? 2)%nat then 0%Q
    else
      let similarities :=
        flat_map (fun i =>
          flat_map (fun j =>
            let nums1 := nth i number_lists [] in
            let nums2 := nth j number_lists [] in
            if is_empty nums1 || is_empty nums2 then []
            else [best_similarity nums1 nums2])
            (range (i + 1) (length number_lists)))
          (range 0 (length number_lists)) in
      if is_empty similarities then 0%Q else mean similarities.

(** The years of the [DATE] entities of one document. *)
Definition extract_dates (ents : list (list N * list N)) : list Q :=
  flat_map (fun ent =>
    if str_eqb (fst ent) (lit "DATE") then
      match search_year (snd ent) with
      | Some year => [inject_Z (Z.of_N year)]
      | None => []
      end
    else []) ents.

(** The values of its [CARDINAL], [PERCENT] and [MONEY] entities. *)
Definition extract_numbers (ents : list (list N * list N)) : list number :=
  flat_map (fun ent =>
    if existsb (str_eqb (fst ent))
               [lit "CARDINAL"; lit "PERCENT"; lit "MONEY"] then
      match search_num (snd ent) with
      | Some num =>
          match parse_float num with
          | Some v => [v]
          | None => []            (* ValueError: pass *)
          end
      | None => []
      end
    else []) ents.

(** The body of [_compare_entities]; [None] when the pipeline raised. *)
Definition compare_entities_body (responses : list (list N)) : option Q :=
  docs ← mapM nlp responses;
  let all_dates := map extract_dates docs in
  let all_numbers := map extract_numbers docs in
  (* Calculate similarity bonuses *)
  let date_similarity :=
    _calculate_numeric_similarity (finite_values all_dates) in
  let number_similarity := _calculate_numeric_similarity all_numbers in
  (* Weighted average of entity similarities *)
  let entity_bonus := (0.6 * date_similarity + 0.4 * number_similarity)%Q in
  Some (1 + entity_bonus * 0.5)%Q.

Definition _compare_entities (responses : list (list N)) : Q :=
  match compare_entities_body responses with
  | Some adjustment => adjustment
  | None => 1%Q                   (* except Exception: return 1.0 *)
  end.

(** *** Contradictions *)

Definition negation_patterns : list (list (list N)) :=
  [ [lit "not"; lit "inte"; lit "aldrig"; lit "never"; lit "no"; lit "nej"];
    [lit "impossible"; lit "om" ++ [246%N] ++ lit "jligt"; lit "unlikely";
     lit "osannolikt"];
    [lit "disagree"; lit "h" ++ [229%N] ++ lit "ller inte med";
     lit "mots" ++ [228%N] ++ lit "tter"] ].

Definition disagreement_markers : list (list (list N)) :=
  [ [lit "however"]; [lit "but"]; [lit "men"]; [lit "dock"];
    [lit "on the contrary"]; [lit "tv" ++ [228%N] ++ lit "rtom"] ].

(** Matches of the negation patterns in a lower-cased response. *)
Definition neg_count (resp_lower : list N) : nat :=
  list_sum (map (fun pattern => findall_count pattern resp_lower)
                negation_patterns).

Definition disagreement_count (resp1_lower resp2_lower : list N) : nat :=
  list_sum (map (fun marker => findall_count marker resp1_lower
                               + findall_count marker resp2_lower)%nat
                disagreement_markers).

(** The signals one pair of responses adds to [contradiction_signals]. *)
Definition pair_signals (resp1 resp2 : list N) : list Q :=
  let resp1_lower := lower resp1 in
  let resp2_lower := lower resp2 in
  let neg_count1 := neg_count resp1_lower in
  let neg_count2 := neg_count resp2_lower in
  (* High negation asymmetry suggests contradiction *)
  (if (2 <? Z.abs (Z.of_nat neg_count1 - Z.of_nat neg_count2))%Z
   then [0.5%Q] else [])
  ++
  (* Look for explicit disagreement markers *)
  (if (1 <? disagreement_count resp1_lower resp2_lower)%nat
   then [0.3%Q] else []).

(** The loops over [responses] and [responses[i+1:]]. *)
Fixpoint contradiction_signals (responses : list (list N)) : list Q :=
  match responses with
  | [] => []
  | resp1 :: rest =>
      flat_map (pair_signals resp1) rest ++ contradiction_signals rest
  end.

(** The body of [_detect_contradictions].  Nothing in it raises on a list
    of strings, so it always answers. *)
Definition detect_contradictions_body (responses : list (list N)) : option Q :=
  let signals := contradiction_signals responses in
  (* Return average contradiction penalty *)
  Some (if is_empty signals then 0%Q else Qmin 0.8 (mean signals)).

(** The handler of [_detect_contradictions], applied to what its body
    gave. *)
Definition detect_contradictions_except (body : option Q) : Q :=
  match body with
  | Some penalty => penalty
  | None => 0%Q                   (* except Exception: return 0.0 *)
  end.

Definition _detect_contradictions (responses : list (list N)) : Q :=
  detect_contradictions_except (detect_contradictions_body responses).

(** *** The score *)

Definition measure_consensus (cache : gmap (list N) Emb)
  (responses : list (list N)) : Q * gmap (list N) Emb :=
  if (length responses <? 2)%nat then (1%Q, cache)
  else
    let '(cache', embs) := _get_embeddings cache responses in
    let result :=
      (* Step 1: Calculate semantic similarity using embeddings *)
      embeddings ← embs;
      similarity_matrix ← cosine_similarity embeddings;
      let n := length responses in
      similarities ← upper_triangle similarity_matrix n;
      let base_similarity :=
        if is_empty similarities then 0%Q else mean similarities in
      (* Step 2: Extract and compare numerical/temporal entities *)
      let entity_adjustment := _compare_entities responses in
      (* Step 3: Detect contradictions and negations *)
      let contradiction_penalty := _detect_contradictions responses in
      (* Step 4: Combine all factors into final consensus score *)
      let final_consensus :=
        (base_similarity * entity_adjustment
         * (1 - contradiction_penalty))%Q in
      Some (Qmax 0 (Qmin 1 final_consensus))
    in
    (match result with
     | Some score => score
     | None => 0%Q                (* except Exception: return 0.0 *)
     end, cache').

End Engine.

(** ** Definitions used by the statements *)

(** *** Unordered pairs *)

(** The pairs the loops [for x in l: for y in l[i+1:]] visit, in order. *)
Fixpoint pairs_flat {A B} (f : A -> A -> list B) (l : list A) : list B :=
  match l with
  | [] => []
  | x :: t => flat_map (f x) t ++ pairs_flat f t
  end.

(** The same pairs through their indices [i < j]. *)
Definition index_pairs_flat {A B} (f : A -> A -> list B) (d : A) (l : list A)
  : list B :=
  flat_map (fun i =>
    flat_map (fun j => f (nth i l d) (nth j l d)) (range (i + 1) (length l)))
    (range 0 (length l)).

(** [w] occurs in [s]. *)
Definition occurs (w s : list N) : Prop :=
  exists pre post, s = pre ++ w ++ post.

(** *** The contradiction penalty as the specification words it *)

Section ContradictionSpec.
Context {U : Unicode}.

(** Matches of the three negation families in a response, lower-cased. *)
Definition negation_count (r : list N) : nat := neg_count (lower r).

(** Occurrences of the disagreement connectives in a response, lower-cased. *)
Definition connective_count (r : list N) : nat :=
  list_sum (map (fun marker => findall_count marker (lower r))
                disagreement_markers).

(** The signals recorded for the pair of responses [r1], [r2]. *)
Definition recorded_signals (r1 r2 : list N) : list Q :=
  (if (2 <? Z.abs (Z.of_nat (negation_count r1) - Z.of_nat (negation_count r2)))%Z
   then [0.5%Q] else [])
  ++ (if (1 <? connective_count r1 + connective_count r2)%nat
      then [0.3%Q] else []).

(** Mean of the signals of all unordered pairs [i < j], capped at 0.8;
    0.0 when none was recorded. *)
Definition penalty_spec (responses : list (list N)) : Q :=
  let signals := index_pairs_flat recorded_signals [] responses in
  match signals with
  | [] => 0%Q
  | _ => Qmin 0.8 (mean signals)
  end.

End ContradictionSpec.

(** *** The numeric-similarity procedure as the specification words it *)

Definition Qmax_list (l : list Q) : Q := fold_right Qmax 0%Q l.

(** [max(0, 1 - |a-b| / max(a,b))] *)
Definition cross_similarity (a b : Q) : Q :=
  Qmax 0 (1 - Qabs (a - b) / Qmax a b).

(** The similarity of one cross pair; none when [max(a,b) == 0], and 0 when
    one of the two is [inf], where the quotient is not a number. *)
Definition cross_pair (a b : number) : list Q :=
  match a, b with
  | Finite a, Finite b =>
      if Qeq_bool (Qmax a b) 0 then [] else [cross_similarity a b]
  | _, _ => [0%Q]
  end.

(** The similarities of the cross pairs of two responses. *)
Definition cross_similarities (vs ws : list number) : list Q :=
  flat_map (fun a => flat_map (fun b => cross_pair a b) ws) vs.

(** The best similarity of a pair of responses (0 when every cross pair is
    skipped). *)
Definition pair_similarity (vs ws : list number) : Q :=
  Qmax_list (cross_similarities vs ws).

(** 0.0 with fewer than two values in total; otherwise the average of the
    best similarities of the unordered pairs of responses that both have a
    value (0.0 when there is no such pair). *)
Definition numeric_similarity_spec (number_lists : list (list number)) : Q :=
  if (length (concat number_lists) <? 2)%nat then 0%Q
  else
    let bests :=
      pairs_flat (fun vs ws =>
        if is_empty vs || is_empty ws then [] else [pair_similarity vs ws])
        number_lists in
    match bests with
    | [] => 0%Q
    | _ => mean bests
    end.

(** The entities found in each response; none at all when the pipeline
    raised on one of the responses. *)
Definition found_entities {M : Models} (responses : list (list N))
  : list (list (list N * list N)) :=
  match mapM nlp responses with
  | Some docs => docs
  | None => []
  end.

(** *** Models for concrete runs *)

Definition dot (a b : list Q) : Q :=
  Qsum (map (fun p => (fst p * snd p)%Q) (combine a b)).

(** [cosine_similarity] on vectors of norm 1: the matrix of dot products. *)
Definition unit_cosine (es : list (list Q)) : option (list (list Q)) :=
  Some (map (fun a => map (dot a) es) es).

(** An encoder with two orthogonal unit vectors: texts ending in [y] go to
    the second axis, all others to the first. *)
Definition axis_encode (s : list N) : option (list Q) :=
  Some (if (List.last s 0 =? 121)%N then [0%Q; 1%Q] else [1%Q; 0%Q]).

(** No entity is ever found. *)
Definition axis_models : Models :=
  {| Emb := list Q;
     encode := axis_encode;
     cosine_similarity := unit_cosine;
     nlp := fun _ => Some [] |}.

(** Every text is tagged as one [CARDINAL] and one [DATE] entity. *)
Definition tagging_models : Models :=
  {| Emb := list Q;
     encode := axis_encode;
     cosine_similarity := unit_cosine;
     nlp := fun s => Some [(lit "CARDINAL", s); (lit "DATE", s)] |}.

(** The entity pipeline raises on every text. *)
Definition failing_nlp_models : Models :=
  {| Emb := list Q;
     encode := axis_encode;
     cosine_similarity := unit_cosine;
     nlp := fun _ => None |}.

(** The encoder raises on every text. *)
Definition failing_encoder_models : Models :=
  {| Emb := list Q;
     encode := fun _ => None;
     cosine_similarity := unit_cosine;
     nlp := fun _ => Some [] |}.

(** *** Text normalization as the specification words it *)

(** The steps in the order the specification lists them: markers removed,
    whitespace collapsed, the ends trimmed, and then the cut at 500. *)
Definition normalize_spec (text : list N) : list N :=
  let text := sub_runs is_markup [] false text in
  let text := sub_runs isspace [32%N] false text in
  let text := strip text in
  if (500 <? length text)%nat then firstn 500 text else text.

(** Whitespace occurs only as single spaces (U+0020); [prev] tells whether
    the previous character was whitespace. *)
Fixpoint single_spaced (prev : bool) (s : list N) : bool :=
  match s with
  | [] => true
  | c :: rest =>
      if isspace c then (c =? 32)%N && negb prev && single_spaced true rest
      else single_spaced false rest
  end.

(** 499 letters, a space and one more letter. *)
Definition long_text : list N := repeat 97%N 499 ++ [32%N; 98%N].

(** The length of a list as a rational. *)
Definition Qlen {A} (l : list A) : Q := inject_Z (Z.of_nat (length l)).

(** The sum of [g x y] over the unordered pairs of a list. *)
Fixpoint pair_total {A} (g : A -> A -> Q) (l : list A) : Q :=
  match l with
  | [] => 0%Q
  | x :: t => (Qsum (map (g x) t) + pair_total g t)%Q
  end.

(** *** Notions used for the similarity stage *)

Section SimilarityNotions.
Context {M : Models}.

(** The embedding [_get_embeddings] uses for a text met with cache [cache]:
    the cached vector of its key, else the encoding of the cleaned text. *)
Definition embedding_of (cache : gmap (list N) Emb) (text : list N)
  : option Emb :=
  match cache !! cache_key text with
  | Some e => Some e
  | None => encode (_clean_text text)
  end.

(** [cosine_similarity] answers with the matrix of the pairwise values
    [c a b] of its rows. *)
Definition pairwise (c : Emb -> Emb -> Q) : Prop :=
  forall es, cosine_similarity es = Some (map (fun a => map (c a) es) es).

(** No two different texts of the list share a cache key. *)
Definition distinct_keys (texts : list (list N)) : Prop :=
  forall r1 r2, In r1 texts -> In r2 texts ->
                cache_key r1 = cache_key r2 -> r1 = r2.

End SimilarityNotions.

Section ScoreNotions.
Context {U : Unicode} {M : Models}.

(** Step 4 of [measure_consensus], from the similarities of the pairs. *)
Definition final_score (similarities : list Q) (responses : list (list N))
  : Q :=
  let base_similarity :=
    if is_empty similarities then 0%Q else mean similarities in
  Qmax 0 (Qmin 1 (base_similarity * _compare_entities responses
                  * (1 - _detect_contradictions responses))).

End ScoreNotions.

(** Two texts of 101 characters with the same first 100 characters, hence
    the same cache key, and a short third one. *)
Definition text_x : list N := repeat 97%N 100 ++ lit "x".
Definition text_y : list N := repeat 97%N 100 ++ lit "y".
Definition text_c : list N := lit "c".

(** ** Further notions *)

(** The same models with another encoder. *)
Definition with_encoder (M : Models) (enc : list N -> option (@Emb M))
  : Models :=
  {| Emb := @Emb M;
     encode := enc;
     cosine_similarity := @cosine_similarity M;
     nlp := @nlp M |}.

(** ** The command line *)

(** A value built by [json.loads].  An object lists its items in the order
    of the dictionary; its keys are distinct. *)
#[local] Unset Elimination Schemes.
Inductive json : Type :=
| JNull
| JBool (b : bool)
| JNum (q : Q)
| JStr (s : list N)
| JArr (items : list json)
| JObj (items : list (list N * json)).
#[local] Set Elimination Schemes.

(** What [json.loads] does with a text: a value, [JSONDecodeError], or
    another exception. *)
Inductive loads_result : Type :=
| Loaded (data : json)
| JSONDecodeError
| LoadsRaised.

(** What a run of [main] leaves: the result record on standard output and
    a normal return; [{"error": ...}] and [sys.exit(1)]; the record of the
    outer handler and [sys.exit(1)]; or, when the engine could not be built,
    only [sys.exit(1)] from [__init__], with nothing on standard output. *)
Inductive outcome : Type :=
| Success (consensus_score : Q) (num_responses : nat)
| InputError (error : list N)
| RuntimeFailure
| EngineFailure.

(** [bool(v)] *)
Definition truthy (v : json) : bool :=
  match v with
  | JNull => false
  | JBool b => b
  | JNum q => negb (Qeq_bool q 0)
  | JStr s => negb (is_empty s)
  | JArr items => negb (is_empty items)
  | JObj items => negb (is_empty items)
  end.

(** [len(v)]; [None] is the [TypeError] of a value without length. *)
Definition py_len (v : json) : option nat :=
  match v with
  | JStr s => Some (length s)
  | JArr items => Some (length items)
  | JObj items => Some (length items)
  | _ => None
  end.

(** [data.get(key, default)] on a dictionary. *)
Fixpoint dict_get (items : list (list N * json)) (key : list N)
  (default : json) : json :=
  match items with
  | [] => default
  | (k, v) :: rest => if str_eqb k key then v else dict_get rest key default
  end.

Definition as_str (v : json) : option (list N) :=
  match v with
  | JStr s => Some s
  | _ => None
  end.

(** *** The contradiction stage on a value of any type

    [measure_consensus] passes [responses] on as it got it, and the command
    line gives it whatever the request holds. *)

Section ContradictionStage.
Context {U : Unicode}.

(** One round of the inner loop: [resp1.lower()] and [resp2.lower()] raise
    [AttributeError] on a member that is not a string. *)
Definition pair_signals_value (resp1 resp2 : json) : option (list Q) :=
  resp1 ← as_str resp1;
  resp2 ← as_str resp2;
  Some (pair_signals resp1 resp2).

(** The loops over a sequence [responses] and its slices
    [responses[i+1:]]. *)
Fixpoint sequence_signals (responses : list json) : option (list Q) :=
  match responses with
  | [] => Some []
  | resp1 :: rest =>
      signals ← mapM (pair_signals_value resp1) rest;
      later ← sequence_signals rest;
      Some (concat signals ++ later)
  end.

(** The signals on any value.  [enumerate] visits the members of a list,
    the characters of a string and the keys of a dictionary, and raises
    [TypeError] on a value that cannot be iterated.  With a first key in
    hand, [responses[i+1:]] raises on a dictionary, which has no slices. *)
Definition value_signals (responses : json) : option (list Q) :=
  match responses with
  | JArr items => sequence_signals items
  | JStr s => sequence_signals (map (fun c => JStr [c]) s)
  | JObj [] => Some []
  | JObj (_ :: _) => None
  | _ => None
  end.

(** The body of [_detect_contradictions]; [None] when it raised. *)
Definition detect_contradictions_value_body (responses : json) : option Q :=
  contradiction_signals ← value_signals responses;
  (* Return average contradiction penalty *)
  Some (if is_empty contradiction_signals then 0%Q
        else Qmin 0.8 (mean contradiction_signals)).

Definition _detect_contradictions_value (responses : json) : Q :=
  detect_contradictions_except (detect_contradictions_value_body responses).

End ContradictionStage.

(** [round(x)] to an integer, ties to even. *)
Definition round_half_even (x : Q) : Z :=
  let f := Qfloor x in
  match (x - inject_Z f ?= 1 # 2)%Q with
  | Lt => f
  | Gt => (f + 1)%Z
  | Eq => if Z.even f then f else (f + 1)%Z
  end.

(** [round(x, 4)] *)
Definition round4 (x : Q) : Q :=
  (inject_Z (round_half_even (x * 10000)) / 10000)%Q.

Section Main.
Context {U : Unicode}.
Variable json_loads : list N -> loads_result.

(** [measure_consensus] of a fresh engine on a dictionary: the loops of
    the first two stages visit its keys, and the third stage is given the
    dictionary. *)
Definition measure_consensus_keys {M : Models}
  (items : list (list N * json)) : Q :=
  let keys := map fst items in
  if (length keys <? 2)%nat then 1%Q
  else
    let result :=
      embeddings ← snd (_get_embeddings ∅ keys);
      similarity_matrix ← cosine_similarity embeddings;
      similarities ← upper_triangle similarity_matrix (length keys);
      let base_similarity :=
        if is_empty similarities then 0%Q else mean similarities in
      let entity_adjustment := _compare_entities keys in
      let contradiction_penalty := _detect_contradictions_value (JObj items) in
      Some (Qmax 0 (Qmin 1 (base_similarity * entity_adjustment
                            * (1 - contradiction_penalty))))
    in
    match result with
    | Some score => score
    | None => 0%Q                 (* except Exception: return 0.0 *)
    end.

(** [measure_consensus] of a fresh engine on whatever [responses] is: a
    list (a member that is not a string raises in [_get_embeddings]), a
    string (its characters are the responses), a dictionary, or a value
    without length. *)
Definition measure_consensus_value {M : Models} (responses : json) : Q :=
  match responses with
  | JArr items =>
      if (length items <? 2)%nat then 1%Q
      else
        match mapM as_str items with
        | Some texts => fst (measure_consensus ∅ texts)
        | None => 0%Q
        end
  | JStr s => fst (measure_consensus ∅ (map (fun c => [c]) s))
  | JObj items => measure_consensus_keys items
  | _ => 0%Q
  end.

(** [main], given whether the engine can be built and the text on standard
    input. *)
Definition main (engine : option Models) (stdin : list N) : outcome :=
  let input_data := strip stdin in
  if is_empty input_data then InputError (lit "No input provided")
  else
    let parsed :=
      match json_loads input_data with
      | Loaded (JObj items) =>
          Some (dict_get items (lit "responses") (JArr []))
      | Loaded _ => None          (* AttributeError: no attribute 'get' *)
      | JSONDecodeError => Some (JArr [JStr input_data])
      | LoadsRaised => None
      end in
    match parsed with
    | None => RuntimeFailure
    | Some responses =>
        if negb (truthy responses)
        then InputError (lit "No responses provided")
        else
          match engine with
          | None => EngineFailure
          | Some M =>
              let consensus_score := @measure_consensus_value M responses in
              match py_len responses with
              | Some num_responses =>
                  Success (round4 consensus_score) num_responses
              | None => RuntimeFailure  (* len(responses): TypeError *)
              end
          end
    end.

End Main.

(** *** A request for concrete runs *)

(** The text [{"responses": ["yes", "no"]}]. *)
Definition sample_request : list N :=
  lit "{" ++ [34%N] ++ lit "responses" ++ [34%N] ++ lit ": ["
  ++ [34%N] ++ lit "yes" ++ [34%N] ++ lit ", "
  ++ [34%N] ++ lit "no" ++ [34%N] ++ lit "]}".

(** A stand-in for [json.loads] that knows [sample_request] and takes any
    other text for malformed. *)
Definition sample_loads (text : list N) : loads_result :=
  if str_eqb text sample_request
  then Loaded (JObj [(lit "responses", JArr [JStr (lit "yes"); JStr (lit "no")])])
  else JSONDecodeError.

(** * Properties *)

(** ** Arithmetic of scores *)

Lemma clamp_bounds (x : Q) : (0 <= Qmax 0 (Qmin 1 x) /\ Qmax 0 (Qmin 1 x) <= 1)%Q.
Proof.
  split.
  - apply Q.le_max_l.
  - apply Q.max_lub; [discriminate | apply Q.le_min_l].
Qed.

Section Score.
Context {U : Unicode} {M : Models}.

Lemma measure_consensus_bounds
  (cache : gmap (list N) Emb) (responses : list (list N)) :
  (0 <= fst (measure_consensus cache responses)
   /\ fst (measure_consensus cache responses) <= 1)%Q.
Proof.
  unfold measure_consensus.
  destruct (length responses <? 2)%nat; [split; discriminate |].
  destruct (_get_embeddings cache responses) as [cache' [embeddings |]];
    cbn; [| split; discriminate].
  destruct (cosine_similarity embeddings) as [similarity_matrix |];
    cbn; [| split; discriminate].
  destruct (upper_triangle similarity_matrix (length responses));
    cbn; [| split; discriminate].
  apply clamp_bounds.
Qed.

(** C1: for every response list and every cache, the score returned by
    [measure_consensus] lies in the closed interval [0, 1]; empty strings
    and responses without entities are not special. *)
Theorem measure_consensus_in_unit_interval
  (cache : gmap (list N) Emb) (responses : list (list N)) :
  (0 <= fst (measure_consensus cache responses)
   /\ fst (measure_consensus cache responses) <= 1)%Q.
Proof. apply measure_consensus_bounds. Qed.

(** C2: with fewer than two responses (in particular exactly one) the
    score is exactly 1.0, whatever the models are, and the cache is left as
    it was: no stage ran. *)
Theorem measure_consensus_fewer_than_two
  (cache : gmap (list N) Emb) (responses : list (list N)) :
  (length responses < 2)%nat ->
  measure_consensus cache responses = (1%Q, cache).
Proof.
  intros Hlen. unfold measure_consensus.
  apply Nat.ltb_lt in Hlen. now rewrite Hlen.
Qed.

(** C10: on the empty list the guard [len(responses) < 2] answers 1.0. *)
Theorem measure_consensus_empty_list (cache : gmap (list N) Emb) :
  measure_consensus cache [] = (1%Q, cache).
Proof. reflexivity. Qed.

End Score.

Lemma measure_consensus_fewer_than_two_witness :
  (length [lit "only"] < 2)%nat
  /\ @measure_consensus ascii_tables axis_models ∅ [lit "only"] = (1%Q, ∅).
Proof.
  split; [simpl; lia |].
  apply (@measure_consensus_fewer_than_two ascii_tables axis_models).
  simpl; lia.
Defined.

(** ** Lists, pairs and means *)

Lemma range_0_S (n : nat) : range 0 (S n) = 0%nat :: map S (range 0 n).
Proof. unfold range. rewrite !Nat.sub_0_r. simpl. now rewrite seq_shift. Qed.

Lemma range_succ (i n : nat) : range (S i + 1) (S n) = map S (range (i + 1) n).
Proof. unfold range. simpl. now rewrite seq_shift. Qed.

Lemma range_1_S (n : nat) : range (0 + 1) (S n) = map S (range 0 n).
Proof. unfold range. simpl. rewrite Nat.sub_0_r. now rewrite seq_shift. Qed.

Lemma flat_map_map_comp {A B C} (g : A -> B) (f : B -> list C) (l : list A) :
  flat_map f (map g l) = flat_map (fun x => f (g x)) l.
Proof. induction l as [| x l IH]; simpl; [reflexivity | now rewrite IH]. Qed.

Lemma flat_map_nth_range {A B} (g : A -> list B) (d : A) (t : list A) :
  flat_map (fun j => g (nth j t d)) (range 0 (length t)) = flat_map g t.
Proof.
  induction t as [| x t IH]; [reflexivity |].
  simpl length. rewrite range_0_S. simpl. f_equal.
  rewrite flat_map_map_comp. exact IH.
Qed.

Lemma index_pairs_flat_eq {A B} (f : A -> A -> list B) (d : A) (l : list A) :
  index_pairs_flat f d l = pairs_flat f l.
Proof.
  induction l as [| x t IH]; [reflexivity |].
  unfold index_pairs_flat in *. simpl length. rewrite range_0_S.
  cbn [flat_map pairs_flat]. f_equal.
  - rewrite range_1_S, flat_map_map_comp. simpl.
    apply (flat_map_nth_range (f x) d t).
  - rewrite flat_map_map_comp. rewrite <- IH.
    apply flat_map_ext. intros i.
    rewrite range_succ, flat_map_map_comp. reflexivity.
Qed.

Lemma pairs_flat_Forall_in {A B} (P : B -> Prop) (f : A -> A -> list B)
  (l : list A) :
  (forall x y, In x l -> In y l -> Forall P (f x y)) ->
  Forall P (pairs_flat f l).
Proof.
  induction l as [| x t IH]; intros Hf; simpl; [constructor |].
  apply Forall_app. split.
  - apply Forall_flat_map, Forall_forall. intros y Hy.
    apply Hf; [now left | right; now apply list_elem_of_In].
  - apply IH. intros a b Ha Hb. apply Hf; now right.
Qed.

Lemma Qsum_app (l1 l2 : list Q) : (Qsum (l1 ++ l2) == Qsum l1 + Qsum l2)%Q.
Proof.
  induction l1 as [| x l1 IH]; simpl; [ring | rewrite IH; ring].
Qed.

Lemma Qsum_bounds (lo hi : Q) (l : list Q) :
  Forall (fun q => lo <= q /\ q <= hi)%Q l ->
  (lo * inject_Z (Z.of_nat (length l)) <= Qsum l
   /\ Qsum l <= hi * inject_Z (Z.of_nat (length l)))%Q.
Proof.
  induction 1 as [| q l [Hlo Hhi] _ [IHlo IHhi]].
  - simpl. change (inject_Z (Z.of_nat 0)) with 0%Q. split; lra.
  - simpl length. rewrite Nat2Z.inj_succ. unfold Z.succ.
    rewrite inject_Z_plus. change (inject_Z 1) with 1%Q.
    simpl Qsum. split; lra.
Qed.

Lemma length_pos_Q {A} (l : list A) :
  l <> [] -> (0 < inject_Z (Z.of_nat (length l)))%Q.
Proof.
  intros Hne. destruct l as [| x l]; [congruence |].
  change 0%Q with (inject_Z 0). rewrite <- Zlt_Qlt. simpl length. lia.
Qed.

(** The mean of a non-empty list lies between any bounds of its elements. *)
Lemma mean_bounds (lo hi : Q) (l : list Q) :
  l <> [] ->
  Forall (fun q => lo <= q /\ q <= hi)%Q l ->
  (lo <= mean l /\ mean l <= hi)%Q.
Proof.
  intros Hne Hall. destruct (Qsum_bounds lo hi l Hall) as [Hlo Hhi].
  pose proof (length_pos_Q l Hne) as Hpos. unfold mean. split.
  - apply Qle_shift_div_l; assumption.
  - apply Qle_shift_div_r; assumption.
Qed.

(** ** The contradiction penalty *)

Lemma list_sum_map_add {A} (f g : A -> nat) (l : list A) :
  list_sum (map (fun x => f x + g x)%nat l)
  = (list_sum (map f l) + list_sum (map g l))%nat.
Proof. induction l as [| x l IH]; simpl; [reflexivity | rewrite IH; lia]. Qed.

Lemma starts_with_prefix (w s : list N) :
  starts_with w s = true -> exists post, s = w ++ post.
Proof.
  revert s. induction w as [| a w IH]; intros s H.
  - now exists s.
  - destruct s as [| b s]; [discriminate |]. simpl in H.
    apply andb_prop in H as [Hab Hrest]. apply N.eqb_eq in Hab. subst b.
    destruct (IH s Hrest) as [post ->]. now exists post.
Qed.

Lemma occurs_cons (w s : list N) (c : N) : occurs w s -> occurs w (c :: s).
Proof. intros (pre & post & ->). now exists (c :: pre), post. Qed.

Section Contradictions.
Context {U : Unicode}.

Lemma match_here_none (alts : list (list N)) (prev : option N) (s : list N) :
  (forall w, In w alts -> starts_with w s = false) ->
  match_here alts prev s = None.
Proof.
  induction alts as [| w alts IH]; intros H; [reflexivity |].
  simpl. rewrite (H w (or_introl eq_refl)). simpl.
  apply IH. intros w' Hw'. apply H. now right.
Qed.

(** A pattern none of whose words occurs in the text has no match. *)
Lemma findall_from_no_occurrence (alts : list (list N)) (s : list N) :
  (forall w, In w alts -> ~ occurs w s) ->
  forall prev skip, findall_from alts prev skip s = 0%nat.
Proof.
  induction s as [| c rest IH]; intros Hno prev skip; [reflexivity |].
  assert (Hrest : forall w, In w alts -> ~ occurs w rest).
  { intros w Hw Hocc. apply (Hno w Hw). now apply occurs_cons. }
  simpl. destruct skip as [| k]; [| now apply IH].
  rewrite match_here_none.
  - destruct (boundary prev (Some c)); now apply IH.
  - intros w Hw. destruct (starts_with w (c :: rest)) eqn:E; [| reflexivity].
    exfalso. apply (Hno w Hw).
    destruct (starts_with_prefix _ _ E) as [post Hpost].
    exists [], post. exact Hpost.
Qed.

Lemma list_sum_zero {A} (f : A -> nat) (l : list A) :
  (forall x, In x l -> f x = 0%nat) -> list_sum (map f l) = 0%nat.
Proof.
  induction l as [| x l IH]; intros H; [reflexivity |].
  simpl. rewrite (H x (or_introl eq_refl)), IH; [reflexivity |].
  intros y Hy. apply H. now right.
Qed.

(** A response in which none of the negation or disagreement words occurs,
    not even inside another word, has both counts at zero. *)
Lemma no_word_no_count (r : list N) :
  (forall w, In w (concat negation_patterns ++ concat disagreement_markers) ->
             ~ occurs w (lower r)) ->
  negation_count r = 0%nat /\ connective_count r = 0%nat.
Proof.
  intros Hno. split.
  - unfold negation_count, neg_count. apply list_sum_zero.
    intros pattern Hp. apply findall_from_no_occurrence.
    intros w Hw. apply Hno, in_or_app. left.
    apply in_concat. now exists pattern.
  - unfold connective_count. apply list_sum_zero.
    intros marker Hm. apply findall_from_no_occurrence.
    intros w Hw. apply Hno, in_or_app. right.
    apply in_concat. now exists marker.
Qed.

Lemma disagreement_count_split (r1 r2 : list N) :
  disagreement_count (lower r1) (lower r2)
  = (connective_count r1 + connective_count r2)%nat.
Proof. apply list_sum_map_add. Qed.

Lemma pair_signals_recorded (r1 r2 : list N) :
  pair_signals r1 r2 = recorded_signals r1 r2.
Proof.
  unfold pair_signals, recorded_signals, negation_count.
  now rewrite disagreement_count_split.
Qed.

Lemma contradiction_signals_pairs (responses : list (list N)) :
  contradiction_signals responses = pairs_flat recorded_signals responses.
Proof.
  induction responses as [| r rest IH]; [reflexivity |].
  simpl. rewrite IH. f_equal. apply flat_map_ext, pair_signals_recorded.
Qed.

Lemma contradiction_signals_index (responses : list (list N)) :
  contradiction_signals responses
  = index_pairs_flat recorded_signals [] responses.
Proof. now rewrite index_pairs_flat_eq, contradiction_signals_pairs. Qed.

Lemma recorded_signals_weights (r1 r2 : list N) :
  Forall (fun q => 0.3 <= q /\ q <= 0.5)%Q (recorded_signals r1 r2).
Proof.
  unfold recorded_signals.
  destruct (_ <? _)%Z; destruct (_ <? _)%nat; simpl;
    repeat constructor; discriminate.
Qed.

Lemma contradiction_signals_weights_aux (r : list N) (rest : list (list N)) :
  Forall (fun q => 0.3 <= q /\ q <= 0.5)%Q (flat_map (recorded_signals r) rest).
Proof.
  apply Forall_flat_map, Forall_forall. intros y _.
  apply recorded_signals_weights.
Qed.

Lemma contradiction_signals_weights (responses : list (list N)) :
  Forall (fun q => 0.3 <= q /\ q <= 0.5)%Q (contradiction_signals responses).
Proof.
  rewrite contradiction_signals_pairs.
  induction responses as [| r rest IH]; simpl; [constructor |].
  apply Forall_app. split; [apply contradiction_signals_weights_aux | exact IH].
Qed.

Lemma contradiction_signals_values (responses : list (list N)) :
  Forall (fun q => q = 0.5%Q \/ q = 0.3%Q) (contradiction_signals responses).
Proof.
  rewrite contradiction_signals_pairs.
  apply pairs_flat_Forall_in. intros r1 r2 _ _. unfold recorded_signals.
  destruct (_ <? _)%Z; destruct (_ <? _)%nat; simpl;
    repeat (apply List.Forall_cons; [auto |]); apply List.Forall_nil.
Qed.

Lemma mean_signals_bounds (responses : list (list N)) :
  contradiction_signals responses <> [] ->
  (0.3 <= mean (contradiction_signals responses)
   /\ mean (contradiction_signals responses) <= 0.5)%Q.
Proof.
  intros Hne. apply mean_bounds; [exact Hne |].
  apply contradiction_signals_weights.
Qed.

(** C6: the penalty lies in [0, 0.8]; it is the mean, capped at 0.8, of
    the signals recorded over the unordered pairs (0.5 when the negation
    counts differ by more than 2, 0.3 when the connectives of the pair number
    more than 1); with no signal it is 0.0, as for two responses without any
    negation or disagreement word. *)
Theorem detect_contradictions_spec (responses : list (list N)) :
  (0 <= _detect_contradictions responses
   /\ _detect_contradictions responses <= 0.8)%Q
  /\ _detect_contradictions responses = penalty_spec responses
  /\ (index_pairs_flat recorded_signals [] responses = [] ->
      _detect_contradictions responses = 0%Q)
  /\ (forall r1 r2,
        negation_count r1 = 0%nat -> connective_count r1 = 0%nat ->
        negation_count r2 = 0%nat -> connective_count r2 = 0%nat ->
        _detect_contradictions [r1; r2] = 0%Q).
Proof.
  repeat split.
  - unfold _detect_contradictions, detect_contradictions_except,
    detect_contradictions_body.
    destruct (contradiction_signals responses) as [| q l] eqn:E;
      [discriminate |].
    cbn [is_empty]. apply Q.min_glb; [discriminate |].
    rewrite <- E. destruct (mean_signals_bounds responses) as [Hlo _].
    + rewrite E. discriminate.
    + lra.
  - unfold _detect_contradictions, detect_contradictions_except,
    detect_contradictions_body.
    destruct (is_empty (contradiction_signals responses));
      [discriminate | apply Q.le_min_l].
  - unfold _detect_contradictions, detect_contradictions_except,
    detect_contradictions_body, penalty_spec.
    rewrite <- contradiction_signals_index.
    now destruct (contradiction_signals responses).
  - intros Hnone. unfold _detect_contradictions, detect_contradictions_except,
    detect_contradictions_body.
    now rewrite contradiction_signals_index, Hnone.
  - intros r1 r2 Hn1 Hc1 Hn2 Hc2. unfold _detect_contradictions, detect_contradictions_except,
    detect_contradictions_body.
    rewrite contradiction_signals_pairs. simpl.
    unfold recorded_signals. now rewrite Hn1, Hc1, Hn2, Hc2.
Qed.

(** C9: every recorded signal weighs 0.5 or 0.3, so the mean never exceeds
    0.5 and the cap of 0.8 never binds: the penalty is the plain mean of the
    signals (0.0 without signals) and is at most 0.5. *)
Theorem detect_contradictions_at_most_half (responses : list (list N)) :
  Forall (fun q => q = 0.5%Q \/ q = 0.3%Q) (contradiction_signals responses)
  /\ (_detect_contradictions responses <= 0.5)%Q
  /\ (_detect_contradictions responses
      == if is_empty (contradiction_signals responses) then 0
         else mean (contradiction_signals responses))%Q.
Proof.
  split; [apply contradiction_signals_values |].
  unfold _detect_contradictions, detect_contradictions_except,
    detect_contradictions_body.
  destruct (contradiction_signals responses) as [| q l] eqn:E; cbn [is_empty].
  - split; [discriminate | reflexivity].
  - rewrite <- E. destruct (mean_signals_bounds responses) as [_ Hhi].
    { rewrite E. discriminate. }
    assert (Hmin : (Qmin 0.8 (mean (contradiction_signals responses))
                    == mean (contradiction_signals responses))%Q).
    { apply Q.min_r. lra. }
    split; [rewrite Hmin; exact Hhi | exact Hmin].
Qed.

End Contradictions.

Lemma detect_contradictions_spec_witness :
  @negation_count ascii_tables (lit "The sky is blue") = 0%nat
  /\ @connective_count ascii_tables (lit "The sky is blue") = 0%nat
  /\ @negation_count ascii_tables (lit "Grass is green") = 0%nat
  /\ @connective_count ascii_tables (lit "Grass is green") = 0%nat
  /\ @_detect_contradictions ascii_tables
       [lit "The sky is blue"; lit "Grass is green"] = 0%Q.
Proof.
  repeat (split; [reflexivity |]).
  apply (@detect_contradictions_spec ascii_tables []); reflexivity.
Defined.

(** ** The numeric-similarity procedure *)

Lemma Qmax_list_app (l1 l2 : list Q) :
  (Qmax_list (l1 ++ l2) == Qmax (Qmax_list l1) (Qmax_list l2))%Q.
Proof.
  induction l1 as [| x l1 IH]; simpl.
  - symmetry. apply Q.max_r. induction l2 as [| y l2 IH2]; simpl.
    + discriminate.
    + eapply Qle_trans; [exact IH2 | apply Q.le_max_r].
  - rewrite IH. apply Q.max_assoc.
Qed.

Lemma Qmax_list_nonneg (l : list Q) : (0 <= Qmax_list l)%Q.
Proof.
  induction l as [| x l IH]; simpl; [discriminate |].
  eapply Qle_trans; [exact IH | apply Q.le_max_r].
Qed.

Lemma Qmax_list_le (hi : Q) (l : list Q) :
  (0 <= hi)%Q -> Forall (fun q => q <= hi)%Q l -> (Qmax_list l <= hi)%Q.
Proof.
  intros Hhi. induction 1 as [| x l Hx _ IH]; simpl; [exact Hhi |].
  now apply Q.max_lub.
Qed.

(** The inner loop over [n2]. *)
Lemma inner_loop_max (n1 : number) (nums2 : list number) (best : Q) :
  (0 <= best)%Q ->
  (fold_left (fun best n2 => value_similarity best n1 n2) nums2 best
   == Qmax best (Qmax_list (cross_similarities [n1] nums2)))%Q.
Proof.
  unfold cross_similarities. simpl flat_map at 1. rewrite app_nil_r.
  revert best. induction nums2 as [| n2 nums2 IH]; intros best Hbest.
  - simpl. symmetry. now apply Q.max_l.
  - cbn [fold_left flat_map].
    assert (Hstep : forall similarity,
              (fold_left (fun best n2 => value_similarity best n1 n2) nums2
                 (Qmax best similarity)
               == Qmax best (Qmax_list ([similarity] ++ flat_map
                                          (fun b => cross_pair n1 b) nums2)))%Q).
    { intros similarity. rewrite IH.
      - simpl Qmax_list. symmetry. apply Q.max_assoc.
      - eapply Qle_trans; [exact Hbest | apply Q.le_max_l]. }
    destruct n1 as [a |], n2 as [b |]; cbn [value_similarity cross_pair];
      try apply Hstep.
    destruct (Qeq_bool (Qmax a b) 0); [exact (IH best Hbest) | apply Hstep].
Qed.

Lemma cross_similarities_cons (n1 : number) (nums1 nums2 : list number) :
  cross_similarities (n1 :: nums1) nums2
  = cross_similarities [n1] nums2 ++ cross_similarities nums1 nums2.
Proof. unfold cross_similarities. simpl. now rewrite app_nil_r. Qed.

(** The two nested loops keep the maximum over the cross pairs. *)
Lemma outer_loop_max (nums1 nums2 : list number) (best : Q) :
  (0 <= best)%Q ->
  (fold_left
     (fun best n1 =>
        fold_left (fun best n2 => value_similarity best n1 n2) nums2 best)
     nums1 best
   == Qmax best (Qmax_list (cross_similarities nums1 nums2)))%Q.
Proof.
  revert best. induction nums1 as [| n1 nums1 IH]; intros best Hbest.
  - simpl. symmetry. now apply Q.max_l.
  - simpl fold_left. pose proof (inner_loop_max n1 nums2 best Hbest) as Hin.
    rewrite IH.
    + rewrite Hin, (cross_similarities_cons n1 nums1 nums2).
      rewrite (Qmax_list_app (cross_similarities [n1] nums2)).
      symmetry. apply Q.max_assoc.
    + rewrite Hin. eapply Qle_trans; [exact Hbest | apply Q.le_max_l].
Qed.

Lemma best_similarity_spec (nums1 nums2 : list number) :
  (best_similarity nums1 nums2 == pair_similarity nums1 nums2)%Q.
Proof.
  unfold best_similarity, pair_similarity.
  rewrite outer_loop_max by discriminate.
  apply Q.max_r, Qmax_list_nonneg.
Qed.

Lemma no_values_concat {A} (number_lists : list (list A)) :
  existsb (fun numbers => negb (is_empty numbers)) number_lists = false ->
  concat number_lists = [].
Proof.
  induction number_lists as [| l ls IH]; simpl; [reflexivity |].
  destruct l; simpl; [exact IH | discriminate].
Qed.

Lemma Qsum_Forall2 (l1 l2 : list Q) :
  Forall2 Qeq l1 l2 -> (Qsum l1 == Qsum l2)%Q.
Proof.
  induction 1 as [| x y l1 l2 Hxy _ IH]; simpl; [reflexivity |].
  now rewrite Hxy, IH.
Qed.

Lemma mean_Forall2 (l1 l2 : list Q) :
  Forall2 Qeq l1 l2 -> (mean l1 == mean l2)%Q.
Proof.
  intros H. unfold mean.
  rewrite (Qsum_Forall2 _ _ H), (Forall2_length _ _ _ H). reflexivity.
Qed.

Lemma flat_map_Forall2 {A B} (R : B -> B -> Prop) (f g : A -> list B)
  (l : list A) :
  (forall x, Forall2 R (f x) (g x)) ->
  Forall2 R (flat_map f l) (flat_map g l).
Proof.
  intros Hfg. induction l as [| x l IH]; simpl; [constructor |].
  apply Forall2_app; [apply Hfg | exact IH].
Qed.

Lemma pairs_flat_Forall2 {A B} (R : B -> B -> Prop) (f g : A -> A -> list B)
  (l : list A) :
  (forall x y, Forall2 R (f x y) (g x y)) ->
  Forall2 R (pairs_flat f l) (pairs_flat g l).
Proof.
  intros Hfg. induction l as [| x t IH]; simpl; [constructor |].
  apply Forall2_app; [| exact IH]. apply flat_map_Forall2, Hfg.
Qed.

(** [_calculate_numeric_similarity] computes the procedure of the
    specification. *)
Lemma calculate_numeric_similarity_spec
  (number_lists : list (list number)) :
  (_calculate_numeric_similarity number_lists
   == numeric_similarity_spec number_lists)%Q.
Proof.
  unfold _calculate_numeric_similarity, numeric_similarity_spec.
  destruct (existsb _ number_lists) eqn:Hany; simpl negb; cbv iota.
  2: { now rewrite (no_values_concat _ Hany). }
  destruct (length (concat number_lists) <? 2)%nat; [reflexivity |].
  change (flat_map _ (range 0 (length number_lists)))
    with (index_pairs_flat
            (fun nums1 nums2 : list number =>
               if is_empty nums1 || is_empty nums2 then []
               else [best_similarity nums1 nums2]) [] number_lists).
  rewrite index_pairs_flat_eq.
  match goal with
  | |- ((if is_empty ?a then _ else _) == match ?b with _ => _ end)%Q =>
      assert (H : Forall2 Qeq a b)
  end.
  { apply pairs_flat_Forall2. intros vs ws.
    destruct (is_empty vs || is_empty ws); repeat constructor.
    apply best_similarity_spec. }
  inversion H as [| x y l1 l2 Hxy Hl E1 E2]; [reflexivity |].
  cbn [is_empty]. rewrite E1, E2. now apply mean_Forall2.
Qed.

Lemma cross_similarity_bounds (a b : Q) :
  (0 <= a)%Q -> (0 <= b)%Q -> ~ (Qmax a b == 0)%Q ->
  (0 <= cross_similarity a b /\ cross_similarity a b <= 1)%Q.
Proof.
  intros Ha Hb Hne. unfold cross_similarity. split; [apply Q.le_max_l |].
  apply Q.max_lub; [discriminate |].
  assert (Hpos : (0 < Qmax a b)%Q).
  { pose proof (Q.le_max_l a b) as Hle.
    destruct (Qlt_le_dec 0 (Qmax a b)) as [Hlt | Hge]; [exact Hlt |].
    exfalso. apply Hne. lra. }
  assert (Hdiv : (0 <= Qabs (a - b) / Qmax a b)%Q).
  { apply Qle_shift_div_l; [exact Hpos |].
    pose proof (Qabs_nonneg (a - b)). lra. }
  lra.
Qed.

Lemma cross_pair_bounds (a b : number) :
  nonneg a -> nonneg b ->
  Forall (fun q => 0 <= q /\ q <= 1)%Q (cross_pair a b).
Proof.
  intros Ha Hb. destruct a as [a |], b as [b |]; cbn [cross_pair];
    try (apply List.Forall_cons; [split; discriminate | constructor]).
  simpl in Ha, Hb. destruct (Qeq_bool (Qmax a b) 0) eqn:E; [constructor |].
  apply List.Forall_cons; [| constructor].
  apply cross_similarity_bounds; [exact Ha | exact Hb |].
  now apply Qeq_bool_neq.
Qed.

Lemma pair_similarity_bounds (vs ws : list number) :
  Forall nonneg vs -> Forall nonneg ws ->
  (0 <= pair_similarity vs ws /\ pair_similarity vs ws <= 1)%Q.
Proof.
  intros Hvs Hws. unfold pair_similarity.
  split; [apply Qmax_list_nonneg |].
  apply Qmax_list_le; [discriminate |].
  unfold cross_similarities.
  apply Forall_flat_map. eapply Forall_impl; [exact Hvs |].
  intros a Ha. apply Forall_flat_map. eapply Forall_impl; [exact Hws |].
  intros b Hb. simpl.
  eapply List.Forall_impl; [| exact (cross_pair_bounds a b Ha Hb)].
  intros q [_ Hq]. exact Hq.
Qed.

Lemma finite_nonneg (l : list Q) :
  Forall (Qle 0) l -> Forall nonneg (map Finite l).
Proof.
  intros H. apply Forall_map. eapply Forall_impl; [exact H |].
  intros q Hq. exact Hq.
Qed.

(** On non-negative values the procedure stays within [0, 1]. *)
Lemma numeric_similarity_spec_bounds (number_lists : list (list number)) :
  Forall (Forall nonneg) number_lists ->
  (0 <= numeric_similarity_spec number_lists
   /\ numeric_similarity_spec number_lists <= 1)%Q.
Proof.
  intros Hpos. unfold numeric_similarity_spec.
  destruct (length (concat number_lists) <? 2)%nat; [split; discriminate |].
  match goal with |- context [match ?b with _ => _ end] => set (bests := b) end.
  assert (Hall : Forall (fun q => 0 <= q /\ q <= 1)%Q bests).
  { apply pairs_flat_Forall_in. intros vs ws Hv Hw.
    destruct (is_empty vs || is_empty ws); [constructor |].
    apply Forall_cons; split; [| constructor].
    apply pair_similarity_bounds;
      eapply (proj1 (List.Forall_forall _ _) Hpos); eassumption. }
  destruct bests as [| q l] eqn:E; [split; discriminate |].
  rewrite <- E in *. apply mean_bounds; [rewrite E; discriminate | exact Hall].
Qed.

(** ** The entity adjustment *)

Lemma inject_N_nonneg (n : N) : (0 <= inject_Z (Z.of_N n))%Q.
Proof. change 0%Q with (inject_Z 0). rewrite <- Zle_Qle. lia. Qed.

Section Entities.
Context {U : Unicode}.

Lemma round_float_nonneg (x : Q) : (0 <= x)%Q -> nonneg (round_float x).
Proof.
  intros Hx. unfold round_float.
  destruct (Qle_bool float_overflow x); [exact I |].
  destruct (Qle_bool x float_underflow); [discriminate | exact Hx].
Qed.

Lemma parse_float_nonneg (s : list N) (v : number) :
  parse_float s = Some v -> nonneg v.
Proof.
  unfold parse_float.
  destruct (drop_while is_digit s) as [| dot fp].
  - destruct (take_while is_digit s); [discriminate |].
    intros [= <-]. apply round_float_nonneg, inject_N_nonneg.
  - destruct (_ && _ && _); [| discriminate]. intros [= <-].
    apply round_float_nonneg.
    pose proof (inject_N_nonneg (digits_value (take_while is_digit s))) as Hi.
    pose proof (inject_N_nonneg (digits_value fp)) as Hf.
    assert (Hden : (0 < inject_Z (10 ^ Z.of_nat (length fp)))%Q).
    { change 0%Q with (inject_Z 0). rewrite <- Zlt_Qlt.
      apply Z.pow_pos_nonneg; lia. }
    assert (Hfrac : (0 <= inject_Z (Z.of_N (digits_value fp))
                         / inject_Z (10 ^ Z.of_nat (length fp)))%Q).
    { apply Qle_shift_div_l; [exact Hden | lra]. }
    lra.
Qed.

Lemma extract_dates_nonneg (ents : list (list N * list N)) :
  Forall (Qle 0) (extract_dates ents).
Proof.
  unfold extract_dates. apply Forall_flat_map, Forall_forall. intros ent _.
  destruct (str_eqb _ _); [| constructor].
  destruct (search_year _); repeat constructor. apply inject_N_nonneg.
Qed.

Lemma extract_numbers_nonneg (ents : list (list N * list N)) :
  Forall nonneg (extract_numbers ents).
Proof.
  unfold extract_numbers. apply Forall_flat_map, Forall_forall. intros ent _.
  destruct (existsb _ _); [| constructor].
  destruct (search_num _) as [num |]; [| constructor].
  destruct (parse_float num) as [v |] eqn:E; [| constructor].
  apply Forall_cons; split; [| constructor].
  now apply (parse_float_nonneg num).
Qed.

Context {M : Models}.

Lemma compare_entities_formula (responses : list (list N))
  (docs : list (list (list N * list N))) :
  mapM nlp responses = Some docs ->
  (_compare_entities responses
   == 1 + 0.5 * (0.6 * numeric_similarity_spec
                         (finite_values (map extract_dates docs))
                 + 0.4 * numeric_similarity_spec (map extract_numbers docs)))%Q.
Proof.
  intros Hdocs. unfold _compare_entities, compare_entities_body.
  rewrite Hdocs. cbn [mbind option_bind].
  rewrite !calculate_numeric_similarity_spec. ring.
Qed.

(** The adjustment stays within [1.0, 1.5], also when the pipeline raised. *)
Lemma compare_entities_bounds (responses : list (list N)) :
  (1 <= _compare_entities responses
   /\ _compare_entities responses <= 1.5)%Q.
Proof.
  destruct (mapM nlp responses) as [docs |] eqn:Hdocs.
  - rewrite (compare_entities_formula responses docs Hdocs).
    assert (Hd : Forall (Forall nonneg)
                   (finite_values (map extract_dates docs))).
    { unfold finite_values. rewrite map_map.
      apply Forall_map, Forall_forall. intros d _.
      apply finite_nonneg, extract_dates_nonneg. }
    assert (Hn : Forall (Forall nonneg) (map extract_numbers docs)).
    { apply Forall_map, Forall_forall. intros d _.
      apply extract_numbers_nonneg. }
    apply numeric_similarity_spec_bounds in Hd, Hn. lra.
  - unfold _compare_entities, compare_entities_body. rewrite Hdocs.
    cbn. split; discriminate.
Qed.

(** C5: for every response list the entity adjustment is
    [1.0 + 0.5 * (0.6 * date_similarity + 0.4 * number_similarity)] and lies
    in [1.0, 1.5]; both similarities are computed from the extracted values
    by the numeric-similarity procedure of the specification (on every
    list of values, [inf] included), for which 100 against 200 gives 0.5
    and 100 against 100 gives 1.0. *)
Theorem compare_entities_spec (responses : list (list N)) :
  (_compare_entities responses
   == 1 + 0.5 * (0.6 * numeric_similarity_spec
                         (finite_values
                            (map extract_dates (found_entities responses)))
                 + 0.4 * numeric_similarity_spec
                           (map extract_numbers (found_entities responses))))%Q
  /\ (1 <= _compare_entities responses
      /\ _compare_entities responses <= 1.5)%Q
  /\ (forall number_lists : list (list number),
      (_calculate_numeric_similarity number_lists
       == numeric_similarity_spec number_lists)%Q)
  /\ (_calculate_numeric_similarity (finite_values [[100%Q]; [200%Q]])
      == 0.5)%Q
  /\ (_calculate_numeric_similarity (finite_values [[100%Q]; [100%Q]])
      == 1)%Q.
Proof.
  split; [| split; [| split; [| split]]].
  - unfold found_entities.
    destruct (mapM nlp responses) as [docs |] eqn:Hdocs.
    + now apply compare_entities_formula.
    + unfold _compare_entities, compare_entities_body. rewrite Hdocs.
      reflexivity.
  - apply compare_entities_bounds.
  - apply calculate_numeric_similarity_spec.
  - reflexivity.
  - reflexivity.
Qed.

End Entities.

(** A malformed number raises [ValueError] inside the loop and is passed
    over; the next entity is still read. *)
Example malformed_number_skipped :
  @extract_numbers ascii_tables
    [(lit "CARDINAL", lit "v1.2.3"); (lit "MONEY", lit "7 dollars")]
  = [Finite 7].
Proof. reflexivity. Qed.

(** A run of 400 nines is [inf] for [float].  Two responses that carry it
    do not match on it, and their adjustment is 1.0. *)
Example overflowing_numbers_do_not_match :
  @parse_float ascii_tables (repeat 57%N 400) = Some Infinity
  /\ (best_similarity [Infinity] [Infinity] == 0)%Q
  /\ (@_compare_entities ascii_tables tagging_models
        [repeat 57%N 400; repeat 57%N 400] == 1)%Q.
Proof. repeat split; vm_compute; reflexivity. Qed.

(** A value below half the smallest positive double is 0.0 for [float], and
    is skipped with the zeros. *)
Example underflowing_numbers_are_zero :
  @parse_float ascii_tables (lit "0." ++ repeat 48%N 400 ++ lit "1")
  = Some (Finite 0)
  /\ (@_compare_entities ascii_tables tagging_models
        [lit "0." ++ repeat 48%N 400 ++ lit "1";
         lit "0." ++ repeat 48%N 400 ++ lit "1"] == 1)%Q.
Proof. repeat split; vm_compute; reflexivity. Qed.

Lemma compare_entities_spec_witness :
  @found_entities tagging_models [lit "100"; lit "200"]
  = [[(lit "CARDINAL", lit "100"); (lit "DATE", lit "100")];
     [(lit "CARDINAL", lit "200"); (lit "DATE", lit "200")]]
  /\ (@_compare_entities ascii_tables tagging_models [lit "100"; lit "200"]
      == 1 + 0.5 * (0.6 * 0 + 0.4 * 0.5))%Q.
Proof.
  split; [reflexivity |].
  destruct (@compare_entities_spec ascii_tables tagging_models
              [lit "100"; lit "200"]) as (Hformula & _).
  rewrite Hformula. vm_compute. reflexivity.
Defined.

(** ** Text normalization *)

Lemma take_drop_while (cls : N -> bool) (s : list N) :
  take_while cls s ++ drop_while cls s = s.
Proof.
  induction s as [| c s IH]; [reflexivity |].
  simpl. destruct (cls c); [simpl; now rewrite IH | reflexivity].
Qed.

Lemma take_while_all (cls : N -> bool) (s : list N) :
  Forall (fun c => cls c = true) (take_while cls s).
Proof.
  induction s as [| c s IH]; simpl; [constructor |].
  destruct (cls c) eqn:E; constructor; assumption.
Qed.

Lemma drop_while_head (cls : N -> bool) (s : list N) (c : N) :
  head (drop_while cls s) = Some c -> cls c = false.
Proof.
  induction s as [| x s IH]; simpl; [discriminate |].
  destruct (cls x) eqn:E; [exact IH |]. simpl. now intros [= <-].
Qed.

Lemma drop_while_length (cls : N -> bool) (s : list N) :
  (length (drop_while cls s) <= length s)%nat.
Proof.
  induction s as [| x s IH]; simpl; [lia |].
  destruct (cls x); simpl; lia.
Qed.

(** What [strip] removes is whitespace at the two ends. *)
Lemma strip_decompose (s : list N) :
  exists pre post,
    s = pre ++ strip s ++ post
    /\ Forall (fun c => isspace c = true) pre
    /\ Forall (fun c => isspace c = true) post.
Proof.
  exists (take_while isspace s),
         (rev (take_while isspace (rev (drop_while isspace s)))).
  split; [| split].
  - unfold strip. rewrite <- rev_app_distr, take_drop_while, rev_involutive.
    now rewrite take_drop_while.
  - apply take_while_all.
  - apply Forall_rev, take_while_all.
Qed.

Lemma strip_length (s : list N) : (length (strip s) <= length s)%nat.
Proof.
  unfold strip. rewrite length_rev.
  etransitivity; [apply drop_while_length |].
  rewrite length_rev. apply drop_while_length.
Qed.

Lemma last_rev_head {A} (l : list A) : last (rev l) = head l.
Proof. destruct l as [| x l]; [reflexivity |]. simpl. apply last_snoc. Qed.

Lemma strip_ends (s : list N) (c : N) :
  head (strip s) = Some c \/ last (strip s) = Some c -> isspace c = false.
Proof.
  unfold strip. intros [Hh | Hl].
  - set (y := drop_while isspace s) in *.
    assert (Hy : head y = Some c).
    { pose proof (take_drop_while isspace (rev y)) as E.
      apply (f_equal (@rev N)) in E.
      rewrite rev_app_distr, rev_involutive in E. rewrite <- E.
      destruct (rev (drop_while isspace (rev y))); [discriminate |].
      exact Hh. }
    now apply (drop_while_head isspace s).
  - rewrite last_rev_head in Hl. now apply drop_while_head in Hl.
Qed.

Lemma sub_runs_markup (in_run : bool) (s : list N) :
  sub_runs is_markup [] in_run s
  = List.filter (fun c => negb (is_markup c)) s.
Proof.
  revert in_run. induction s as [| c s IH]; intros in_run; [reflexivity |].
  simpl. destruct (is_markup c); simpl.
  - rewrite IH. now destruct in_run.
  - now rewrite IH.
Qed.

Lemma collapse_keeps_content (in_run : bool) (s : list N) :
  List.filter (fun c => negb (isspace c)) (sub_runs isspace [32%N] in_run s)
  = List.filter (fun c => negb (isspace c)) s.
Proof.
  revert in_run. induction s as [| c s IH]; intros in_run; [reflexivity |].
  simpl. destruct (isspace c) eqn:E; simpl.
  - rewrite List.filter_app, IH. now destruct in_run.
  - rewrite E. simpl. now rewrite IH.
Qed.

Lemma collapse_single_spaced (in_run : bool) (s : list N) :
  single_spaced in_run (sub_runs isspace [32%N] in_run s) = true.
Proof.
  revert in_run. induction s as [| c s IH]; intros in_run; [reflexivity |].
  simpl. destruct (isspace c) eqn:E.
  - destruct in_run; simpl; [apply IH |]. apply IH.
  - simpl. rewrite E. apply IH.
Qed.

Lemma single_spaced_weaken (s : list N) :
  single_spaced true s = true -> single_spaced false s = true.
Proof.
  destruct s as [| c s]; [reflexivity |]. simpl.
  destruct (isspace c); [| trivial]. now rewrite andb_false_r.
Qed.

Lemma single_spaced_app_l (prev : bool) (l1 l2 : list N) :
  single_spaced prev (l1 ++ l2) = true -> single_spaced prev l1 = true.
Proof.
  revert prev. induction l1 as [| c l1 IH]; intros prev; [reflexivity |].
  simpl. destruct (isspace c); [| apply IH].
  intros H. apply andb_prop in H as [H1 H2]. rewrite H1. simpl. now apply IH.
Qed.

Lemma single_spaced_app_r (prev : bool) (l1 l2 : list N) :
  single_spaced prev (l1 ++ l2) = true -> single_spaced false l2 = true.
Proof.
  revert prev. induction l1 as [| c l1 IH]; intros prev; simpl.
  - destruct prev; [apply single_spaced_weaken | trivial].
  - destruct (isspace c); [| apply IH].
    intros H. apply andb_prop in H as [_ H2]. now apply IH in H2.
Qed.

Lemma filter_all_space (l : list N) :
  Forall (fun c => isspace c = true) l ->
  List.filter (fun c => negb (isspace c)) l = [].
Proof.
  induction 1 as [| c l Hc _ IH]; [reflexivity |].
  simpl. now rewrite Hc.
Qed.

Lemma strip_keeps_content (s : list N) :
  List.filter (fun c => negb (isspace c)) (strip s)
  = List.filter (fun c => negb (isspace c)) s.
Proof.
  destruct (strip_decompose s) as (pre & post & E & Hpre & Hpost).
  rewrite E at 2. rewrite !List.filter_app.
  now rewrite (filter_all_space pre), (filter_all_space post), app_nil_r.
Qed.

Lemma collapse_Forall (P : N -> Prop) (in_run : bool) (s : list N) :
  P 32%N -> Forall P s -> Forall P (sub_runs isspace [32%N] in_run s).
Proof.
  intros Hsp Hs. revert in_run.
  induction Hs as [| c s Hc _ IH]; intros in_run; simpl; [constructor |].
  destruct (isspace c).
  - apply Forall_app. split; [| apply IH].
    destruct in_run; repeat constructor. exact Hsp.
  - constructor; [exact Hc | apply IH].
Qed.

Lemma filter_firstn_prefix (f : N -> bool) (n : nat) (l : list N) :
  List.filter f (firstn n l) `prefix_of` List.filter f l.
Proof.
  exists (List.filter f (skipn n l)).
  now rewrite <- List.filter_app, firstn_skipn.
Qed.

(** C8, as the code has it: [_clean_text] removes the marker characters,
    collapses each run of whitespace to one space, cuts the text at 500
    characters and only then trims the two ends.  Its result has no marker
    character, has whitespace only as single spaces, neither starts nor ends
    with whitespace, has at most 500 characters, and its non-whitespace
    characters are a prefix, in the original order, of the non-whitespace,
    non-marker characters of the input. *)
Theorem clean_text_spec (text : list N) :
  _clean_text text
  = strip
      (let collapsed :=
         sub_runs isspace [32%N] false (sub_runs is_markup [] false text) in
       if (500 <? length collapsed)%nat then firstn 500 collapsed
       else collapsed)
  /\ Forall (fun c => is_markup c = false) (_clean_text text)
  /\ single_spaced false (_clean_text text) = true
  /\ (forall c, head (_clean_text text) = Some c
                \/ last (_clean_text text) = Some c -> isspace c = false)
  /\ (length (_clean_text text) <= 500)%nat
  /\ List.filter (fun c => negb (isspace c)) (_clean_text text)
     `prefix_of`
     List.filter (fun c => negb (isspace c))
       (List.filter (fun c => negb (is_markup c)) text).
Proof.
  unfold _clean_text.
  set (collapsed :=
         sub_runs isspace [32%N] false (sub_runs is_markup [] false text)).
  set (cut := if (500 <? length collapsed)%nat then firstn 500 collapsed
              else collapsed).
  assert (Hcut : exists rest, collapsed = cut ++ rest).
  { unfold cut. destruct (500 <? length collapsed)%nat.
    - exists (skipn 500 collapsed). now rewrite firstn_skipn.
    - exists []. now rewrite app_nil_r. }
  destruct Hcut as [rest Hcut].
  destruct (strip_decompose cut) as (pre & post & Hstrip & _ & _).
  split; [reflexivity |]. split; [| split; [| split; [| split]]].
  - assert (Hc : Forall (fun c => is_markup c = false) collapsed).
    { unfold collapsed. apply collapse_Forall; [reflexivity |].
      rewrite sub_runs_markup. apply Forall_forall. intros c Hin.
      apply list_elem_of_In, List.filter_In in Hin as [_ Hin].
      now apply negb_true_iff. }
    rewrite Hcut, Hstrip in Hc.
    apply Forall_app in Hc as [Hc _]. apply Forall_app in Hc as [_ Hc].
    now apply Forall_app in Hc as [Hc _].
  - pose proof (collapse_single_spaced false
                  (sub_runs is_markup [] false text)) as Hs.
    fold collapsed in Hs. rewrite Hcut, Hstrip in Hs.
    apply single_spaced_app_l in Hs. apply single_spaced_app_r in Hs.
    now apply single_spaced_app_l in Hs.
  - apply strip_ends.
  - etransitivity; [apply strip_length |]. unfold cut.
    destruct (500 <? length collapsed)%nat eqn:E.
    + rewrite length_firstn. lia.
    + apply Nat.ltb_ge in E. exact E.
  - rewrite strip_keeps_content.
    assert (Hrhs : List.filter (fun c => negb (isspace c))
                     (List.filter (fun c => negb (is_markup c)) text)
                   = List.filter (fun c => negb (isspace c)) collapsed).
    { unfold collapsed. now rewrite collapse_keeps_content, sub_runs_markup. }
    rewrite Hrhs. unfold cut.
    destruct (500 <? length collapsed)%nat;
      [apply filter_firstn_prefix | reflexivity].
Qed.

Lemma clean_text_order_counterexample :
  _clean_text long_text <> normalize_spec long_text.
Proof.
  intros H. apply (f_equal (@length N)) in H. vm_compute in H. discriminate.
Qed.

Lemma clean_text_spec_witness :
  _clean_text (lit "  **Hello**   __world__ #1  ") = lit "Hello world 1"
  /\ head (_clean_text (lit "  **Hello**   __world__ #1  ")) = Some 72%N
  /\ isspace 72 = false.
Proof.
  split; [reflexivity |]. split; [reflexivity |].
  destruct (clean_text_spec (lit "  **Hello**   __world__ #1  "))
    as (_ & _ & _ & Hends & _).
  apply Hends. left. reflexivity.
Defined.


(** ** The similarity stage *)

Section Similarity.
Context {M : Models}.

Lemma mapM_cons {A B} (f : A -> option B) (x : A) (l : list A) :
  mapM f (x :: l)
  = match f x with
    | Some y => cons y <$> mapM f l
    | None => None
    end.
Proof. cbn. destruct (f x); [| reflexivity]. now destruct (mapM f l). Qed.

(** With distinct keys, each text gets the embedding it would get alone,
    whatever the order of the texts. *)
Lemma get_embeddings_snd (cache0 cache1 : gmap (list N) Emb)
  (texts : list (list N)) :
  distinct_keys texts ->
  (forall r, In r texts -> embedding_of cache1 r = embedding_of cache0 r) ->
  snd (_get_embeddings cache1 texts) = mapM (embedding_of cache0) texts.
Proof.
  revert cache1. induction texts as [| text rest IH]; intros cache1 Hkeys Hagree;
    [reflexivity |].
  assert (Hrest : distinct_keys rest).
  { intros r1 r2 H1 H2. apply Hkeys; now right. }
  rewrite mapM_cons. rewrite <- (Hagree text (or_introl eq_refl)).
  cbn [_get_embeddings]. unfold embedding_of at 1.
  destruct (cache1 !! cache_key text) as [e |] eqn:Hhit.
  - specialize (IH cache1 Hrest (fun r Hr => Hagree r (or_intror Hr))).
    destruct (_get_embeddings cache1 rest) as [cache' r]. cbn in *.
    now rewrite IH.
  - destruct (encode (_clean_text text)) as [e |] eqn:Henc; [| reflexivity].
    assert (Hnew : forall r, In r rest ->
              embedding_of (<[cache_key text := e]> cache1) r
              = embedding_of cache0 r).
    { intros r Hr. destruct (decide (cache_key text = cache_key r)) as [Hk | Hk].
      - assert (text = r) as <-.
        { apply Hkeys; [now left | now right | exact Hk]. }
        rewrite <- (Hagree text (or_introl eq_refl)).
        unfold embedding_of. now rewrite lookup_insert_eq, Hhit, Henc.
      - rewrite <- (Hagree r (or_intror Hr)).
        unfold embedding_of. now rewrite lookup_insert_ne. }
    specialize (IH _ Hrest Hnew).
    destruct (_get_embeddings (<[cache_key text := e]> cache1) rest)
      as [cache' r].
    cbn in *. now rewrite IH.
Qed.

Lemma get_embeddings_distinct (cache : gmap (list N) Emb)
  (texts : list (list N)) :
  distinct_keys texts ->
  snd (_get_embeddings cache texts) = mapM (embedding_of cache) texts.
Proof. intros Hkeys. now apply get_embeddings_snd. Qed.

Lemma mapM_map_in {A B} (f : A -> option B) (g : A -> B) (l : list A) :
  (forall x, In x l -> f x = Some (g x)) -> mapM f l = Some (map g l).
Proof.
  induction l as [| x l IH]; intros H; [reflexivity |].
  rewrite mapM_cons, (H x (or_introl eq_refl)), IH; [reflexivity |].
  intros y Hy. apply H. now right.
Qed.

Lemma kernel_lookup (c : Emb -> Emb -> Q) (es : list Emb) (d : Emb)
  (i j : nat) :
  (i < length es)%nat -> (j < length es)%nat ->
  map (fun a => map (c a) es) es !! i ≫= (.!! j)
  = Some (c (nth i es d) (nth j es d)).
Proof.
  intros Hi Hj.
  change (map (fun a => map (c a) es) es)
    with ((fun a => c a <$> es) <$> es).
  rewrite list_lookup_fmap.
  destruct (lookup_lt_is_Some_2 es i Hi) as [a Ha].
  destruct (lookup_lt_is_Some_2 es j Hj) as [b Hb].
  rewrite Ha. cbn. rewrite list_lookup_fmap, Hb. cbn.
  now rewrite (nth_lookup_Some _ _ d _ Ha), (nth_lookup_Some _ _ d _ Hb).
Qed.

Lemma in_range (a b i : nat) : In i (range a b) -> (a <= i < b)%nat.
Proof. unfold range. rewrite in_seq. lia. Qed.

Lemma flat_map_singleton {A B} (g : A -> B) (l : list A) :
  flat_map (fun x => [g x]) l = map g l.
Proof. induction l as [| x l IH]; simpl; [reflexivity | now rewrite IH]. Qed.

(** The loops over [i < j] read the values of the unordered pairs. *)
Lemma upper_triangle_kernel (c : Emb -> Emb -> Q) (es : list Emb) :
  upper_triangle (map (fun a => map (c a) es) es) (length es)
  = Some (pairs_flat (fun a b => [c a b]) es).
Proof.
  destruct es as [| d es']; [reflexivity |].
  set (es := d :: es'). unfold upper_triangle.
  rewrite (mapM_map_in _
    (fun i => map (fun j => c (nth i es d) (nth j es d))
                  (range (i + 1) (length es)))).
  - cbn [fmap option_fmap option_map]. f_equal.
    rewrite <- flat_map_concat_map, <- index_pairs_flat_eq with (d := d).
    unfold index_pairs_flat. apply flat_map_ext. intros i.
    now rewrite flat_map_singleton.
  - intros i Hi. apply in_range in Hi. apply mapM_map_in.
    intros j Hj. apply in_range in Hj. apply kernel_lookup; lia.
Qed.

End Similarity.

(** ** Aggregates over unordered pairs do not depend on the order *)

Lemma mean_nil : (mean [] == 0)%Q.
Proof. reflexivity. Qed.

Lemma guarded_mean (l : list Q) :
  ((if is_empty l then 0 else mean l) == mean l)%Q.
Proof. destruct l; [symmetry; apply mean_nil | reflexivity]. Qed.

Lemma Qsum_map_perm {A} (g : A -> Q) (t t' : list A) :
  Permutation t t' -> (Qsum (map g t) == Qsum (map g t'))%Q.
Proof.
  induction 1 as [| x t t' _ IH | x y t | t1 t2 t3 _ IH1 _ IH2]; simpl.
  - reflexivity.
  - now rewrite IH.
  - ring.
  - now rewrite IH1.
Qed.

Lemma pair_total_perm {A} (g : A -> A -> Q) (l l' : list A) :
  (forall x y, g x y == g y x)%Q ->
  Permutation l l' -> (pair_total g l == pair_total g l')%Q.
Proof.
  intros Hsym.
  induction 1 as [| x t t' Hperm IH | x y t | t1 t2 t3 _ IH1 _ IH2]; simpl.
  - reflexivity.
  - now rewrite IH, (Qsum_map_perm (g x) t t' Hperm).
  - rewrite (Hsym y x). ring.
  - now rewrite IH1.
Qed.

Lemma Qsum_flat_map {A} (h : A -> list Q) (t : list A) :
  (Qsum (flat_map h t) == Qsum (map (fun y => Qsum (h y)) t))%Q.
Proof.
  induction t as [| y t IH]; simpl; [reflexivity |].
  now rewrite Qsum_app, IH.
Qed.

Lemma Qsum_pairs_flat {A} (f : A -> A -> list Q) (l : list A) :
  (Qsum (pairs_flat f l) == pair_total (fun x y => Qsum (f x y)) l)%Q.
Proof.
  induction l as [| x t IH]; simpl; [reflexivity |].
  now rewrite Qsum_app, IH, Qsum_flat_map.
Qed.

Lemma Qlen_app {A} (l1 l2 : list A) : (Qlen (l1 ++ l2) == Qlen l1 + Qlen l2)%Q.
Proof.
  unfold Qlen. rewrite length_app, Nat2Z.inj_add, inject_Z_plus. reflexivity.
Qed.

Lemma Qlen_flat_map {A B} (h : A -> list B) (t : list A) :
  (Qlen (flat_map h t) == Qsum (map (fun y => Qlen (h y)) t))%Q.
Proof.
  induction t as [| y t IH]; simpl; [reflexivity |].
  now rewrite Qlen_app, IH.
Qed.

Lemma Qlen_pairs_flat {A B} (f : A -> A -> list B) (l : list A) :
  (Qlen (pairs_flat f l) == pair_total (fun x y => Qlen (f x y)) l)%Q.
Proof.
  induction l as [| x t IH]; simpl; [reflexivity |].
  now rewrite Qlen_app, IH, Qlen_flat_map.
Qed.

(** The mean over the unordered pairs, for contributions that do not
    depend on the order inside a pair. *)
Lemma mean_pairs_perm {A} (f : A -> A -> list Q) (l l' : list A) :
  (forall x y, Qsum (f x y) == Qsum (f y x))%Q ->
  (forall x y, length (f x y) = length (f y x)) ->
  Permutation l l' ->
  (mean (pairs_flat f l) == mean (pairs_flat f l'))%Q.
Proof.
  intros Hsum Hlen Hperm. unfold mean.
  fold (Qlen (pairs_flat f l)). fold (Qlen (pairs_flat f l')).
  rewrite !Qsum_pairs_flat, !Qlen_pairs_flat.
  rewrite (pair_total_perm _ l l' Hsum Hperm).
  rewrite (pair_total_perm (fun x y => Qlen (f x y)) l l'); [reflexivity | |
    exact Hperm].
  intros x y. unfold Qlen. now rewrite Hlen.
Qed.

Lemma Qmax_list_in (q : Q) (l : list Q) : In q l -> (q <= Qmax_list l)%Q.
Proof.
  induction l as [| x l IH]; simpl; [contradiction |].
  intros [-> | Hin]; [apply Q.le_max_l |].
  eapply Qle_trans; [now apply IH | apply Q.le_max_r].
Qed.

Lemma Qmax_list_mono (l1 l2 : list Q) :
  (forall q, In q l1 -> exists q', In q' l2 /\ (q <= q')%Q) ->
  (Qmax_list l1 <= Qmax_list l2)%Q.
Proof.
  intros H. apply Qmax_list_le; [apply Qmax_list_nonneg |].
  apply List.Forall_forall. intros q Hq.
  destruct (H q Hq) as (q' & Hq' & Hle).
  eapply Qle_trans; [exact Hle | now apply Qmax_list_in].
Qed.

Lemma cross_similarities_in (q : Q) (vs ws : list number) :
  In q (cross_similarities vs ws) <->
  exists a b, In a vs /\ In b ws /\ In q (cross_pair a b).
Proof.
  unfold cross_similarities. rewrite in_flat_map. split.
  - intros (a & Ha & Hq). apply in_flat_map in Hq as (b & Hb & Hq).
    now exists a, b.
  - intros (a & b & Ha & Hb & Hq). exists a. split; [exact Ha |].
    apply in_flat_map. now exists b.
Qed.

Lemma cross_similarity_sym (a b : Q) :
  (cross_similarity a b == cross_similarity b a)%Q.
Proof.
  unfold cross_similarity.
  now rewrite (Q.max_comm a b), (Qabs_Qminus a b).
Qed.

Lemma skip_sym (a b : Q) : Qeq_bool (Qmax a b) 0 = Qeq_bool (Qmax b a) 0.
Proof. now rewrite (Q.max_comm a b). Qed.

Lemma cross_pair_sym (a b : number) (q : Q) :
  In q (cross_pair a b) ->
  exists q', In q' (cross_pair b a) /\ (q <= q')%Q.
Proof.
  destruct a as [a |], b as [b |]; cbn [cross_pair];
    try (intros [<- | []]; exists 0%Q; split; [now left | apply Qle_refl]).
  rewrite (skip_sym b a). destruct (Qeq_bool (Qmax a b) 0); [contradiction |].
  intros [<- | []]. exists (cross_similarity b a). split; [now left |].
  rewrite cross_similarity_sym. apply Qle_refl.
Qed.

Lemma pair_similarity_le (vs ws : list number) :
  (pair_similarity vs ws <= pair_similarity ws vs)%Q.
Proof.
  apply Qmax_list_mono. intros q Hq.
  apply cross_similarities_in in Hq as (a & b & Ha & Hb & Hq).
  destruct (cross_pair_sym a b q Hq) as (q' & Hq' & Hle).
  exists q'. split; [| exact Hle].
  apply cross_similarities_in. now exists b, a.
Qed.

Lemma pair_similarity_sym (vs ws : list number) :
  (pair_similarity vs ws == pair_similarity ws vs)%Q.
Proof. apply Qle_antisym; apply pair_similarity_le. Qed.

Lemma concat_length_perm {A} (ls ls' : list (list A)) :
  Permutation ls ls' -> length (concat ls) = length (concat ls').
Proof.
  intros H. apply Permutation_length.
  assert (Hid : forall l : list (list A), concat l = flat_map (fun x => x) l).
  { induction l as [| x l IH]; simpl; [reflexivity | now rewrite IH]. }
  rewrite !Hid. now apply Permutation_flat_map.
Qed.

(** The numeric-similarity procedure does not depend on the order of the
    responses. *)
Lemma numeric_similarity_spec_perm (ls ls' : list (list number)) :
  Permutation ls ls' ->
  (numeric_similarity_spec ls == numeric_similarity_spec ls')%Q.
Proof.
  intros Hperm. unfold numeric_similarity_spec.
  rewrite (concat_length_perm ls ls' Hperm).
  destruct (length (concat ls') <? 2)%nat; [reflexivity |].
  set (f := fun vs ws : list number =>
              if is_empty vs || is_empty ws then []
              else [pair_similarity vs ws]).
  assert (Hmean : forall l, (match pairs_flat f l with
                             | [] => 0
                             | _ => mean (pairs_flat f l)
                             end == mean (pairs_flat f l))%Q).
  { intros l. destruct (pairs_flat f l); reflexivity. }
  rewrite !Hmean. apply mean_pairs_perm; [| | exact Hperm].
  - intros vs ws. unfold f. rewrite (orb_comm (is_empty ws)).
    destruct (is_empty vs || is_empty ws); [reflexivity |].
    simpl. now rewrite pair_similarity_sym.
  - intros vs ws. unfold f. rewrite (orb_comm (is_empty ws)).
    now destruct (is_empty vs || is_empty ws).
Qed.

Lemma mapM_perm {A B} (f : A -> option B) (l l' : list A) :
  Permutation l l' ->
  match mapM f l, mapM f l' with
  | Some k, Some k' => Permutation k k'
  | None, None => True
  | _, _ => False
  end.
Proof.
  induction 1 as [| x t t' _ IH | x y t | t1 t2 t3 _ IH1 _ IH2].
  - cbn. constructor.
  - rewrite !mapM_cons. destruct (f x); [| exact I].
    destruct (mapM f t), (mapM f t'); cbn; try exact IH.
    now apply perm_skip.
  - rewrite !mapM_cons. destruct (f x), (f y); cbn; try exact I.
    destruct (mapM f t); cbn; [apply perm_swap | exact I].
  - destruct (mapM f t1), (mapM f t2), (mapM f t3); try contradiction;
      [eapply perm_trans; eassumption | exact I].
Qed.

(** ** The score does not depend on the order of the responses *)

Section Permutations.
Context {U : Unicode} {M : Models}.

Lemma recorded_signals_sym (r1 r2 : list N) :
  recorded_signals r1 r2 = recorded_signals r2 r1.
Proof.
  unfold recorded_signals.
  rewrite (Nat.add_comm (connective_count r1)).
  replace (Z.abs (Z.of_nat (negation_count r1) - Z.of_nat (negation_count r2)))
    with (Z.abs (Z.of_nat (negation_count r2) - Z.of_nat (negation_count r1)))
    by lia.
  reflexivity.
Qed.

Lemma detect_contradictions_mean (responses : list (list N)) :
  (_detect_contradictions responses
   == Qmin 0.8 (mean (contradiction_signals responses)))%Q.
Proof.
  unfold _detect_contradictions, detect_contradictions_except,
    detect_contradictions_body.
  now destruct (contradiction_signals responses).
Qed.

Lemma detect_contradictions_perm (rs rs' : list (list N)) :
  Permutation rs rs' ->
  (_detect_contradictions rs == _detect_contradictions rs')%Q.
Proof.
  intros Hperm. rewrite !detect_contradictions_mean.
  rewrite !contradiction_signals_pairs.
  rewrite (mean_pairs_perm recorded_signals rs rs'); [reflexivity | | |
    exact Hperm].
  - intros x y. now rewrite recorded_signals_sym.
  - intros x y. now rewrite recorded_signals_sym.
Qed.

Lemma compare_entities_perm (rs rs' : list (list N)) :
  Permutation rs rs' ->
  (_compare_entities rs == _compare_entities rs')%Q.
Proof.
  intros Hperm. unfold _compare_entities, compare_entities_body.
  pose proof (mapM_perm nlp rs rs' Hperm) as Hdocs.
  destruct (mapM nlp rs) as [docs |], (mapM nlp rs') as [docs' |];
    try contradiction; [| reflexivity].
  cbn [mbind option_bind]. rewrite !calculate_numeric_similarity_spec.
  rewrite (numeric_similarity_spec_perm
             (finite_values (map extract_dates docs))
             (finite_values (map extract_dates docs')))
    by now apply Permutation_map, Permutation_map.
  rewrite (numeric_similarity_spec_perm (map extract_numbers docs)
             (map extract_numbers docs')) by now apply Permutation_map.
  reflexivity.
Qed.

Lemma get_embeddings_length (cache : gmap (list N) Emb)
  (texts : list (list N)) (es : list Emb) :
  snd (_get_embeddings cache texts) = Some es -> length es = length texts.
Proof.
  revert cache es. induction texts as [| text rest IH]; intros cache es.
  - cbn. now intros [= <-].
  - cbn [_get_embeddings].
    destruct (cache !! cache_key text) as [e |].
    + specialize (IH cache).
      destruct (_get_embeddings cache rest) as [cache' [r |]]; cbn;
        [| discriminate].
      intros [= <-]. cbn. f_equal. now apply IH.
    + destruct (encode (_clean_text text)) as [e |]; [| discriminate].
      specialize (IH (<[cache_key text := e]> cache)).
      destruct (_get_embeddings (<[cache_key text := e]> cache) rest)
        as [cache' [r |]]; cbn; [| discriminate].
      intros [= <-]. cbn. f_equal. now apply IH.
Qed.

Lemma measure_consensus_fst (cache : gmap (list N) Emb)
  (responses : list (list N)) :
  fst (measure_consensus cache responses)
  = if (length responses <? 2)%nat then 1%Q
    else match
           embeddings ← snd (_get_embeddings cache responses);
           similarity_matrix ← cosine_similarity embeddings;
           similarities ← upper_triangle similarity_matrix (length responses);
           Some (final_score similarities responses)
         with
         | Some score => score
         | None => 0%Q
         end.
Proof.
  unfold measure_consensus.
  destruct (length responses <? 2)%nat; [reflexivity |].
  now destruct (_get_embeddings cache responses).
Qed.

(** With a pairwise [cosine_similarity] the score is step 4 applied to the
    values of the unordered pairs of embeddings. *)
Lemma measure_consensus_pairwise (c : Emb -> Emb -> Q)
  (cache : gmap (list N) Emb) (responses : list (list N)) (es : list Emb) :
  pairwise c -> (2 <= length responses)%nat ->
  snd (_get_embeddings cache responses) = Some es ->
  fst (measure_consensus cache responses)
  = final_score (pairs_flat (fun a b => [c a b]) es) responses.
Proof.
  intros Hc Hlen Hes. rewrite measure_consensus_fst.
  apply Nat.ltb_ge in Hlen. rewrite Hlen, Hes. cbn [mbind option_bind].
  rewrite (Hc es). cbn [mbind option_bind].
  rewrite <- (get_embeddings_length _ _ _ Hes), upper_triangle_kernel.
  reflexivity.
Qed.

Lemma measure_consensus_no_embeddings (cache : gmap (list N) Emb)
  (responses : list (list N)) :
  (2 <= length responses)%nat ->
  snd (_get_embeddings cache responses) = None ->
  fst (measure_consensus cache responses) = 0%Q.
Proof.
  intros Hlen Hes. rewrite measure_consensus_fst.
  apply Nat.ltb_ge in Hlen. now rewrite Hlen, Hes.
Qed.

Lemma distinct_keys_perm (rs rs' : list (list N)) :
  Permutation rs rs' -> distinct_keys rs -> distinct_keys rs'.
Proof.
  intros Hperm Hkeys r1 r2 H1 H2. apply Hkeys.
  - eapply Permutation_in; [symmetry; exact Hperm | exact H1].
  - eapply Permutation_in; [symmetry; exact Hperm | exact H2].
Qed.

(** C4, as the code has it: when no two different responses share a cache
    key and [cosine_similarity] is pairwise and symmetric, the score of a
    permutation of the responses is the score of the responses. *)
Theorem measure_consensus_permutation (c : Emb -> Emb -> Q)
  (cache : gmap (list N) Emb) (rs rs' : list (list N)) :
  pairwise c -> (forall a b, c a b == c b a)%Q ->
  distinct_keys rs -> Permutation rs rs' ->
  (fst (measure_consensus cache rs) == fst (measure_consensus cache rs'))%Q.
Proof.
  intros Hc Hsym Hkeys Hperm.
  pose proof (Permutation_length Hperm) as Hlen.
  destruct (length rs <? 2)%nat eqn:Hguard.
  - rewrite !measure_consensus_fst, <- Hlen, Hguard. reflexivity.
  - apply Nat.ltb_ge in Hguard.
    pose proof (get_embeddings_distinct cache rs Hkeys) as Hes.
    pose proof (get_embeddings_distinct cache rs'
                  (distinct_keys_perm rs rs' Hperm Hkeys)) as Hes'.
    pose proof (mapM_perm (embedding_of cache) rs rs' Hperm) as Hembs.
    rewrite <- Hes, <- Hes' in Hembs.
    destruct (snd (_get_embeddings cache rs)) as [es |] eqn:E,
             (snd (_get_embeddings cache rs')) as [es' |] eqn:E';
      try contradiction.
    + rewrite (measure_consensus_pairwise c cache rs es Hc Hguard E).
      rewrite (measure_consensus_pairwise c cache rs' es' Hc) by
        (rewrite <- Hlen; exact Hguard) || exact E'.
      unfold final_score. rewrite !guarded_mean.
      rewrite (compare_entities_perm rs rs' Hperm).
      rewrite (detect_contradictions_perm rs rs' Hperm).
      rewrite (mean_pairs_perm (fun a b => [c a b]) es es'); [reflexivity | | |
        exact Hembs].
      * intros a b. simpl. now rewrite Hsym.
      * reflexivity.
    + rewrite !measure_consensus_no_embeddings; try reflexivity;
        try assumption. rewrite <- Hlen. exact Hguard.
Qed.

End Permutations.

Lemma dot_sym (a b : list Q) : (dot a b == dot b a)%Q.
Proof.
  unfold dot. revert b. induction a as [| x a IH]; intros [| y b]; simpl;
    try reflexivity.
  rewrite IH. ring.
Qed.

Lemma axis_models_pairwise : @pairwise axis_models dot.
Proof. intros es. reflexivity. Qed.

Lemma measure_consensus_permutation_witness :
  @pairwise axis_models dot
  /\ (forall a b, dot a b == dot b a)%Q
  /\ distinct_keys [lit "yes"; lit "no"; lit "maybe"]
  /\ Permutation [lit "yes"; lit "no"; lit "maybe"]
                 [lit "maybe"; lit "yes"; lit "no"]
  /\ (fst (@measure_consensus ascii_tables axis_models ∅
             [lit "yes"; lit "no"; lit "maybe"])
      == fst (@measure_consensus ascii_tables axis_models ∅
                [lit "maybe"; lit "yes"; lit "no"]))%Q.
Proof.
  assert (Hkeys : distinct_keys [lit "yes"; lit "no"; lit "maybe"]).
  { intros r1 r2 [<- | [<- | [<- | []]]] [<- | [<- | [<- | []]]] H;
      try reflexivity; vm_compute in H; discriminate. }
  assert (Hperm : Permutation [lit "yes"; lit "no"; lit "maybe"]
                              [lit "maybe"; lit "yes"; lit "no"]).
  { apply Permutation_sym. apply (Permutation_cons_app [_; _] []).
    apply Permutation_refl. }
  split; [exact axis_models_pairwise |].
  split; [exact dot_sym |].
  split; [exact Hkeys |].
  split; [exact Hperm |].
  exact (@measure_consensus_permutation ascii_tables axis_models dot ∅ _ _
           axis_models_pairwise dot_sym Hkeys Hperm).
Defined.

(** With two responses under one cache key the order matters: the second
    of them is given the embedding cached for the first. *)
Lemma measure_consensus_permutation_counterexample :
  Permutation [text_x; text_y; text_c] [text_y; text_x; text_c]
  /\ cache_key text_x = cache_key text_y
  /\ (fst (@measure_consensus ascii_tables axis_models ∅
             [text_x; text_y; text_c]) == 1)%Q
  /\ (fst (@measure_consensus ascii_tables axis_models ∅
             [text_y; text_x; text_c]) == 1 # 3)%Q
  /\ ~ (fst (@measure_consensus ascii_tables axis_models ∅
               [text_x; text_y; text_c])
        == fst (@measure_consensus ascii_tables axis_models ∅
                  [text_y; text_x; text_c]))%Q.
Proof.
  split; [apply perm_swap |].
  split; [reflexivity |].
  split; [vm_compute; reflexivity |].
  split; [vm_compute; reflexivity |].
  vm_compute. discriminate.
Qed.

(** ** Identical responses *)

Lemma pairs_flat_repeat_nil {A B} (f : A -> A -> list B) (x : A) (n : nat) :
  f x x = [] -> pairs_flat f (repeat x n) = [].
Proof.
  intros Hf. induction n as [| n IH]; [reflexivity |].
  simpl. rewrite IH, app_nil_r.
  clear IH. induction n as [| n IH]; simpl; [reflexivity |].
  now rewrite Hf, IH.
Qed.

Lemma pairs_flat_repeat_all {A B} (P : B -> Prop) (f : A -> A -> list B)
  (x : A) (n : nat) :
  Forall P (f x x) -> Forall P (pairs_flat f (repeat x n)).
Proof.
  intros Hf. apply pairs_flat_Forall_in. intros a b Ha Hb.
  apply repeat_spec in Ha, Hb. now subst.
Qed.

Lemma pairs_flat_repeat_nonempty {A B} (f : A -> A -> list B) (x : A)
  (n : nat) (v : B) :
  f x x = [v] -> (2 <= n)%nat -> pairs_flat f (repeat x n) <> [].
Proof.
  intros Hf Hn. destruct n as [| [| n]]; [lia | lia |].
  simpl. now rewrite Hf.
Qed.

(** The mean of a non-empty list of copies of [v]. *)
Lemma mean_constant (v : Q) (l : list Q) :
  l <> [] -> Forall (fun q => q == v)%Q l -> (mean l == v)%Q.
Proof.
  intros Hne Hall.
  destruct (mean_bounds v v l Hne) as [Hlo Hhi].
  - eapply Forall_impl; [exact Hall |]. intros q Hq. simpl in Hq.
    rewrite Hq. split; apply Qle_refl.
  - now apply Qle_antisym.
Qed.

Lemma mapM_repeat {A B} (f : A -> option B) (x : A) (y : B) (n : nat) :
  f x = Some y -> mapM f (repeat x n) = Some (repeat y n).
Proof.
  intros Hf. induction n as [| n IH]; [reflexivity |].
  simpl repeat. now rewrite mapM_cons, Hf, IH.
Qed.

Lemma distinct_keys_repeat (s : list N) (n : nat) :
  distinct_keys (repeat s n).
Proof.
  intros r1 r2 H1 H2 _. apply repeat_spec in H1, H2. now subst.
Qed.

Section Identical.
Context {U : Unicode} {M : Models}.

(** Between copies of one response only the connectives can signal. *)
Lemma recorded_signals_same (s : list N) :
  recorded_signals s s
  = if (connective_count s =? 0)%nat then [] else [0.3%Q].
Proof.
  unfold recorded_signals. rewrite Z.sub_diag. simpl.
  destruct (connective_count s) as [| k]; [reflexivity |].
  simpl Nat.eqb. cbv iota.
  replace (1 <? S k + S k)%nat with true; [reflexivity |].
  symmetry. apply Nat.ltb_lt. lia.
Qed.

Lemma detect_contradictions_repeat (s : list N) (n : nat) :
  (2 <= n)%nat ->
  (_detect_contradictions (repeat s n)
   == if (connective_count s =? 0)%nat then 0 else 0.3)%Q.
Proof.
  intros Hn. rewrite detect_contradictions_mean, contradiction_signals_pairs.
  pose proof (recorded_signals_same s) as Hsame.
  destruct (connective_count s =? 0)%nat.
  - now rewrite (pairs_flat_repeat_nil _ _ _ Hsame).
  - rewrite (mean_constant 0.3).
    + reflexivity.
    + now apply (pairs_flat_repeat_nonempty _ _ _ _ Hsame).
    + apply pairs_flat_repeat_all. rewrite Hsame.
      repeat constructor.
Qed.

(** C3, as the code has it: for a response repeated N >= 2 times, with an
    embedding available and perfect self-similarity, the score is 1.0 when
    the response has no disagreement connective; when it has one, every pair
    records a 0.3 signal and the score is min(1, 0.7 * entity adjustment). *)
Theorem identical_responses_score (c : Emb -> Emb -> Q)
  (cache : gmap (list N) Emb) (s : list N) (n : nat) (e : Emb) :
  pairwise c -> (c e e == 1)%Q ->
  embedding_of cache s = Some e -> (2 <= n)%nat ->
  (fst (measure_consensus cache (repeat s n))
   == if (connective_count s =? 0)%nat then 1
      else Qmin 1 (0.7 * _compare_entities (repeat s n)))%Q.
Proof.
  intros Hc Hself Hemb Hn.
  assert (Hes : snd (_get_embeddings cache (repeat s n)) = Some (repeat e n)).
  { rewrite (get_embeddings_distinct _ _ (distinct_keys_repeat s n)).
    now apply mapM_repeat. }
  rewrite (measure_consensus_pairwise c cache _ _ Hc) by
    (rewrite repeat_length; exact Hn) || exact Hes.
  unfold final_score. rewrite guarded_mean.
  rewrite (mean_constant 1).
  2: { now apply (pairs_flat_repeat_nonempty _ e n (c e e)). }
  2: { apply pairs_flat_repeat_all. now repeat constructor. }
  rewrite (detect_contradictions_repeat s n Hn).
  destruct (compare_entities_bounds (repeat s n)) as [Hlo Hhi].
  destruct (connective_count s =? 0)%nat.
  - rewrite Q.min_l by lra. now apply Q.max_r.
  - assert (Heq : (1 * _compare_entities (repeat s n) * (1 - 0.3)
                   == 0.7 * _compare_entities (repeat s n))%Q) by ring.
    rewrite Heq. apply Q.max_r. apply Q.min_glb; lra.
Qed.

End Identical.

Lemma identical_responses_score_witness :
  @pairwise axis_models dot
  /\ (dot [1; 0] [1; 0] == 1)%Q
  /\ @embedding_of axis_models ∅ (lit "We agree") = Some [1%Q; 0%Q]
  /\ (2 <= 3)%nat
  /\ (fst (@measure_consensus ascii_tables axis_models ∅
             (repeat (lit "We agree") 3)) == 1)%Q.
Proof.
  assert (Hself : (dot [1; 0] [1; 0] == 1)%Q) by reflexivity.
  assert (Hemb : @embedding_of axis_models ∅ (lit "We agree")
                 = Some [1%Q; 0%Q]) by reflexivity.
  assert (Hn : (2 <= 3)%nat) by lia.
  split; [exact axis_models_pairwise |].
  split; [exact Hself |].
  split; [exact Hemb |].
  split; [exact Hn |].
  exact (@identical_responses_score ascii_tables axis_models dot ∅
           (lit "We agree") 3 [1%Q; 0%Q]
           axis_models_pairwise Hself Hemb Hn).
Defined.

(** A response with one "but", given twice: the two copies together hold
    two connectives, a 0.3 signal is recorded and the score is 0.7. *)
Lemma identical_responses_counterexample :
  (2 <= 2)%nat
  /\ @pairwise axis_models dot
  /\ @embedding_of axis_models ∅ (lit "good but slow") = Some [1%Q; 0%Q]
  /\ (dot [1; 0] [1; 0] == 1)%Q
  /\ (@_detect_contradictions ascii_tables (repeat (lit "good but slow") 2)
      == 0.3)%Q
  /\ (fst (@measure_consensus ascii_tables axis_models ∅
             (repeat (lit "good but slow") 2)) == 0.7)%Q
  /\ ~ (fst (@measure_consensus ascii_tables axis_models ∅
               (repeat (lit "good but slow") 2)) == 1)%Q.
Proof.
  split; [lia |].
  split; [exact axis_models_pairwise |].
  split; [reflexivity |].
  split; [reflexivity |].
  split; [vm_compute; reflexivity |].
  split; [vm_compute; reflexivity |].
  vm_compute. discriminate.
Qed.

(** ** Failures of the stages *)

Section Failures.
Context {U : Unicode} {M : Models}.

Lemma compare_entities_failure (responses : list (list N)) :
  Exists (fun r => nlp r = None) responses ->
  compare_entities_body responses = None /\ _compare_entities responses = 1%Q.
Proof.
  intros Hfail. apply mapM_None_2 in Hfail.
  unfold _compare_entities, compare_entities_body. now rewrite Hfail.
Qed.

Lemma sequence_signals_strings (responses : list (list N)) :
  sequence_signals (map JStr responses)
  = Some (contradiction_signals responses).
Proof.
  induction responses as [| resp1 rest IH]; [reflexivity |].
  cbn [map sequence_signals contradiction_signals].
  assert (Hrow : mapM (pair_signals_value (JStr resp1)) (map JStr rest)
                 = Some (map (pair_signals resp1) rest)).
  { clear IH. induction rest as [| resp2 rest IHrest]; [reflexivity |].
    cbn [map]. rewrite mapM_cons, IHrest. reflexivity. }
  rewrite Hrow, IH. cbn [mbind option_bind].
  now rewrite flat_map_concat_map.
Qed.

(** On a list of strings the stage on values is [_detect_contradictions]. *)
Lemma detect_contradictions_value_strings (responses : list (list N)) :
  detect_contradictions_value_body (JArr (map JStr responses))
  = detect_contradictions_body responses
  /\ _detect_contradictions_value (JArr (map JStr responses))
     = _detect_contradictions responses.
Proof.
  unfold _detect_contradictions_value, _detect_contradictions,
    detect_contradictions_value_body, detect_contradictions_body.
  cbn [value_signals]. rewrite sequence_signals_strings.
  split; reflexivity.
Qed.

(** The score on a dictionary, once the embeddings of its keys are there
    and [cosine_similarity] is pairwise. *)
Lemma measure_consensus_keys_pairwise (c : Emb -> Emb -> Q)
  (items : list (list N * json)) (es : list Emb) :
  pairwise c -> (2 <= length items)%nat ->
  snd (_get_embeddings ∅ (map fst items)) = Some es ->
  (measure_consensus_keys items
   == Qmax 0 (Qmin 1 (mean (pairs_flat (fun a b => [c a b]) es)
                      * _compare_entities (map fst items)
                      * (1 - _detect_contradictions_value (JObj items)))))%Q.
Proof.
  intros Hc Hlen Hes. unfold measure_consensus_keys. cbv zeta.
  rewrite <- (length_map fst) in Hlen.
  apply Nat.ltb_ge in Hlen. rewrite Hlen, Hes. cbn [mbind option_bind].
  rewrite (Hc es). cbn [mbind option_bind].
  rewrite <- (get_embeddings_length _ _ _ Hes), upper_triangle_kernel.
  cbn [mbind option_bind]. now rewrite guarded_mean.
Qed.

(** C7: a failure of a stage does not leave [measure_consensus].  When the
    entity pipeline raises, the adjustment is 1.0 and the score is still
    computed from the similarities and the penalty.  When the body of the
    contradiction stage raises, the penalty is 0.0; it does so on a
    dictionary that has a key, where the score is still computed from the
    similarities and the adjustment of the keys, and on a list of strings
    the stage is [_detect_contradictions].  When the encoder or
    [cosine_similarity] raises, or an entry of the matrix is missing, the
    score is 0.0.  In every case a score in [0, 1] is returned. *)
Theorem stage_failures_do_not_propagate
  (cache : gmap (list N) Emb) (responses : list (list N)) :
  (Exists (fun r => nlp r = None) responses ->
   _compare_entities responses = 1%Q
   /\ forall c es,
        pairwise c -> (2 <= length responses)%nat ->
        snd (_get_embeddings cache responses) = Some es ->
        (fst (measure_consensus cache responses)
         == Qmax 0 (Qmin 1 (mean (pairs_flat (fun a b => [c a b]) es) * 1
                            * (1 - _detect_contradictions responses))))%Q)
  /\ ((forall value : json,
         detect_contradictions_value_body value = None ->
         _detect_contradictions_value value = 0%Q)
      /\ _detect_contradictions_value (JArr (map JStr responses))
         = _detect_contradictions responses
      /\ forall items : list (list N * json),
           items <> [] ->
           detect_contradictions_value_body (JObj items) = None
           /\ forall c es,
                pairwise c -> (2 <= length items)%nat ->
                snd (_get_embeddings ∅ (map fst items)) = Some es ->
                (measure_consensus_keys items
                 == Qmax 0 (Qmin 1 (mean (pairs_flat (fun a b => [c a b]) es)
                                    * _compare_entities (map fst items)
                                    * (1 - 0))))%Q)
  /\ ((2 <= length responses)%nat ->
      snd (_get_embeddings cache responses) = None ->
      fst (measure_consensus cache responses) = 0%Q)
  /\ ((2 <= length responses)%nat ->
      forall es,
        snd (_get_embeddings cache responses) = Some es ->
        cosine_similarity es = None
        \/ (exists similarity_matrix,
              cosine_similarity es = Some similarity_matrix
              /\ upper_triangle similarity_matrix (length responses) = None) ->
        fst (measure_consensus cache responses) = 0%Q)
  /\ (0 <= fst (measure_consensus cache responses)
      /\ fst (measure_consensus cache responses) <= 1)%Q.
Proof.
  split; [| split; [| split; [| split]]].
  - intros Hfail. destruct (compare_entities_failure responses Hfail) as [_ H1].
    split; [exact H1 |]. intros c es Hc Hlen Hes.
    rewrite (measure_consensus_pairwise c cache responses es Hc Hlen Hes).
    unfold final_score. now rewrite guarded_mean, H1.
  - split; [| split].
    + intros value Hraise. unfold _detect_contradictions_value.
      now rewrite Hraise.
    + apply detect_contradictions_value_strings.
    + intros items Hitems.
      assert (Hraise : detect_contradictions_value_body (JObj items) = None).
      { destruct items; [congruence | reflexivity]. }
      split; [exact Hraise |]. intros c es Hc Hlen Hes.
      rewrite (measure_consensus_keys_pairwise c items es Hc Hlen Hes).
      unfold _detect_contradictions_value. rewrite Hraise. reflexivity.
  - apply measure_consensus_no_embeddings.
  - intros Hlen es Hes Hfail. rewrite measure_consensus_fst.
    apply Nat.ltb_ge in Hlen. rewrite Hlen, Hes. cbn [mbind option_bind].
    destruct Hfail as [-> | (similarity_matrix & -> & Htri)];
      [reflexivity |].
    cbn [mbind option_bind]. now rewrite Htri.
  - apply measure_consensus_bounds.
Qed.

End Failures.

Lemma stage_failures_do_not_propagate_witness :
  Exists (fun r => @nlp failing_nlp_models r = None) [lit "yes"; lit "no"]
  /\ @_compare_entities ascii_tables failing_nlp_models [lit "yes"; lit "no"]
     = 1%Q
  /\ [(lit "yes", JNum 1); (lit "no", JNum 2)] <> []
  /\ @detect_contradictions_value_body ascii_tables
       (JObj [(lit "yes", JNum 1); (lit "no", JNum 2)]) = None
  /\ @_detect_contradictions_value ascii_tables
       (JObj [(lit "yes", JNum 1); (lit "no", JNum 2)]) = 0%Q
  /\ (@measure_consensus_keys ascii_tables axis_models
        [(lit "yes", JNum 1); (lit "no", JNum 2)] == 1)%Q
  /\ (2 <= length [lit "yes"; lit "no"])%nat
  /\ snd (@_get_embeddings failing_encoder_models ∅ [lit "yes"; lit "no"])
     = None
  /\ fst (@measure_consensus ascii_tables failing_encoder_models ∅
            [lit "yes"; lit "no"]) = 0%Q.
Proof.
  assert (Hnlp : Exists (fun r => @nlp failing_nlp_models r = None)
                        [lit "yes"; lit "no"]).
  { apply Exists_cons_hd. reflexivity. }
  assert (Hitems : [(lit "yes", JNum 1); (lit "no", JNum 2)] <> [])
    by discriminate.
  assert (Hlen : (2 <= length [lit "yes"; lit "no"])%nat) by (simpl; lia).
  assert (Hlen' : (2 <= length [(lit "yes", JNum 1); (lit "no", JNum 2)])%nat)
    by (simpl; lia).
  assert (Hemb : snd (@_get_embeddings failing_encoder_models ∅
                        [lit "yes"; lit "no"]) = None) by reflexivity.
  assert (Hkeys : snd (@_get_embeddings axis_models ∅
                         (map fst [(lit "yes", JNum 1); (lit "no", JNum 2)]))
                  = Some [[1%Q; 0%Q]; [1%Q; 0%Q]]) by reflexivity.
  pose proof (proj1 (proj2 (@stage_failures_do_not_propagate ascii_tables
                              axis_models ∅ [])))
    as (Hhandler & _ & Hdict).
  destruct (Hdict _ Hitems) as [Hraise Hscore].
  split; [exact Hnlp |].
  split.
  { exact (proj1 (proj1 (@stage_failures_do_not_propagate ascii_tables
                           failing_nlp_models ∅ [lit "yes"; lit "no"])
                        Hnlp)). }
  split; [exact Hitems |].
  split; [exact Hraise |].
  split; [exact (Hhandler _ Hraise) |].
  split.
  { rewrite (Hscore dot _ axis_models_pairwise Hlen' Hkeys).
    vm_compute. reflexivity. }
  split; [exact Hlen |].
  split; [exact Hemb |].
  exact (proj1 (proj2 (proj2 (@stage_failures_do_not_propagate ascii_tables
                                failing_encoder_models ∅
                                [lit "yes"; lit "no"])))
               Hlen Hemb).
Defined.

(** * Further properties of the code *)

(** ** The embedding cache *)

Section Cache.
Context {M : Models}.

Lemma get_embeddings_subseteq (cache : gmap (list N) Emb)
  (texts : list (list N)) :
  cache ⊆ fst (_get_embeddings cache texts).
Proof.
  revert cache. induction texts as [| text rest IH]; intros cache;
    [reflexivity |].
  cbn [_get_embeddings].
  destruct (cache !! cache_key text) as [e |] eqn:Hhit.
  - specialize (IH cache).
    destruct (_get_embeddings cache rest) as [cache' r]. exact IH.
  - destruct (encode (_clean_text text)) as [e |]; [| reflexivity].
    specialize (IH (<[cache_key text := e]> cache)).
    destruct (_get_embeddings (<[cache_key text := e]> cache) rest)
      as [cache' r].
    cbn in *. etransitivity; [| exact IH].
    now apply insert_subseteq.
Qed.

Lemma get_embeddings_cached (cache cache' : gmap (list N) Emb)
  (texts : list (list N)) (es : list Emb) :
  _get_embeddings cache texts = (cache', Some es) ->
  Forall2 (fun text e => cache' !! cache_key text = Some e) texts es.
Proof.
  revert cache es. induction texts as [| text rest IH]; intros cache es.
  - cbn. intros [= <- <-]. constructor.
  - cbn [_get_embeddings].
    destruct (cache !! cache_key text) as [e |] eqn:Hhit.
    + pose proof (get_embeddings_subseteq cache rest) as Hgrow.
      specialize (IH cache).
      destruct (_get_embeddings cache rest) as [cache1 [r |]]; cbn;
        [| discriminate].
      intros [= <- <-]. constructor; [| now apply IH].
      cbn in Hgrow. eapply lookup_weaken; eassumption.
    + destruct (encode (_clean_text text)) as [e |]; [| discriminate].
      pose proof (get_embeddings_subseteq
                    (<[cache_key text := e]> cache) rest) as Hgrow.
      specialize (IH (<[cache_key text := e]> cache)).
      destruct (_get_embeddings (<[cache_key text := e]> cache) rest)
        as [cache1 [r |]]; cbn; [| discriminate].
      intros [= <- <-]. constructor; [| now apply IH].
      cbn in Hgrow. eapply lookup_weaken; [| exact Hgrow].
      apply lookup_insert_eq.
Qed.

Lemma get_embeddings_replay (cache : gmap (list N) Emb)
  (texts : list (list N)) :
  _get_embeddings (fst (_get_embeddings cache texts)) texts
  = _get_embeddings cache texts.
Proof.
  revert cache. induction texts as [| text rest IH]; intros cache;
    [reflexivity |].
  cbn [_get_embeddings].
  destruct (cache !! cache_key text) as [e |] eqn:Hhit.
  - pose proof (get_embeddings_subseteq cache rest) as Hgrow.
    specialize (IH cache).
    destruct (_get_embeddings cache rest) as [cache' r]. cbn in *.
    rewrite (lookup_weaken _ _ _ _ Hhit Hgrow), IH. reflexivity.
  - destruct (encode (_clean_text text)) as [e |] eqn:Henc.
    + pose proof (get_embeddings_subseteq
                    (<[cache_key text := e]> cache) rest) as Hgrow.
      specialize (IH (<[cache_key text := e]> cache)).
      destruct (_get_embeddings (<[cache_key text := e]> cache) rest)
        as [cache' r].
      cbn in *.
      rewrite (lookup_weaken _ _ (cache_key text) e
                 (lookup_insert_eq _ _ _) Hgrow), IH.
      reflexivity.
    + cbn [fst _get_embeddings]. now rewrite Hhit.
Qed.

(** X1: [_get_embeddings] only adds entries: what was cached stays cached,
    unchanged, also when the encoder raises part-way. *)
Theorem get_embeddings_cache_grows (cache : gmap (list N) Emb)
  (texts : list (list N)) (key : list N) (e : Emb) :
  cache !! key = Some e ->
  fst (_get_embeddings cache texts) !! key = Some e.
Proof.
  intros Hin. eapply lookup_weaken; [exact Hin |].
  apply get_embeddings_subseteq.
Qed.

(** X2: After a run that did not raise there is one embedding per text, the key
    of every text is in the cache, and the embedding returned for a text is
    the vector cached under its key. *)
Theorem get_embeddings_returns_cached (cache cache' : gmap (list N) Emb)
  (texts : list (list N)) (es : list Emb) :
  _get_embeddings cache texts = (cache', Some es) ->
  length es = length texts
  /\ Forall2 (fun text e => cache' !! cache_key text = Some e) texts es.
Proof.
  intros Hrun. pose proof (get_embeddings_cached _ _ _ _ Hrun) as Hall.
  split; [symmetry; eapply Forall2_length; exact Hall | exact Hall].
Qed.

(** X3: Texts with one cache key are given one embedding, whatever their
    content after the first 100 characters. *)
Theorem get_embeddings_same_key (cache cache' : gmap (list N) Emb)
  (texts : list (list N)) (es : list Emb) (i j : nat)
  (text1 text2 : list N) (e1 e2 : Emb) :
  _get_embeddings cache texts = (cache', Some es) ->
  texts !! i = Some text1 -> texts !! j = Some text2 ->
  es !! i = Some e1 -> es !! j = Some e2 ->
  cache_key text1 = cache_key text2 -> e1 = e2.
Proof.
  intros Hrun Hi Hj Hei Hej Hkey.
  pose proof (get_embeddings_cached _ _ _ _ Hrun) as Hall.
  pose proof (Forall2_lookup_lr _ _ _ _ _ _ Hall Hi Hei) as H1.
  pose proof (Forall2_lookup_lr _ _ _ _ _ _ Hall Hj Hej) as H2.
  cbn in H1, H2. rewrite Hkey in H1. congruence.
Qed.

(** X5: Calling [_get_embeddings] again on the cache it left gives the same
    answer and leaves that cache as it is. *)
Theorem get_embeddings_repeatable (cache : gmap (list N) Emb)
  (texts : list (list N)) :
  _get_embeddings (fst (_get_embeddings cache texts)) texts
  = (fst (_get_embeddings cache texts), snd (_get_embeddings cache texts)).
Proof.
  rewrite get_embeddings_replay. now destruct (_get_embeddings cache texts).
Qed.

End Cache.

(** X4: When every key is cached the call is a pure read: it returns the
    cached vectors and leaves the cache as it is, whatever the encoder
    would do. *)
Theorem get_embeddings_all_hits (M : Models)
  (enc : list N -> option (@Emb M)) (cache : gmap (list N) (@Emb M))
  (texts : list (list N)) (es : list (@Emb M)) :
  Forall2 (fun text e => cache !! cache_key text = Some e) texts es ->
  @_get_embeddings (with_encoder M enc) cache texts = (cache, Some es).
Proof.
  induction 1 as [| text e rest es' Hhit _ IH]; [reflexivity |].
  cbn [_get_embeddings]. cbn [Emb with_encoder] in *.
  rewrite Hhit, IH. reflexivity.
Qed.

(** X6: Scoring the same responses again on the cache the first call left
    gives the same score and leaves the cache as it is. *)
Theorem measure_consensus_repeatable {U : Unicode} {M : Models}
  (cache : gmap (list N) Emb) (responses : list (list N)) :
  measure_consensus (snd (measure_consensus cache responses)) responses
  = measure_consensus cache responses.
Proof.
  unfold measure_consensus.
  destruct (length responses <? 2)%nat; [reflexivity |].
  pose proof (get_embeddings_replay cache responses) as Hreplay.
  destruct (_get_embeddings cache responses) as [cache' embs].
  cbn in *. now rewrite Hreplay.
Qed.

(** ** Cache keys *)

Lemma lit_inj (s1 s2 : string) : lit s1 = lit s2 -> s1 = s2.
Proof.
  revert s2. induction s1 as [| c s1 IH]; intros [| c' s2]; simpl;
    try discriminate; [reflexivity |].
  intros [= Hc Hs]. f_equal; [| now apply IH].
  now rewrite <- (ascii_N_embedding c), Hc, ascii_N_embedding.
Qed.

Lemma digits_no_underscore (d : Decimal.uint) :
  Forall (fun c => c <> 95%N) (lit (NilEmpty.string_of_uint d)).
Proof.
  induction d; simpl; constructor; try assumption;
    intros H; vm_compute in H; discriminate.
Qed.

Lemma str_of_nat_no_underscore (n : nat) :
  Forall (fun c => c <> 95%N) (str_of_nat n).
Proof.
  unfold str_of_nat. destruct (Nat.to_uint n);
    try exact (digits_no_underscore _).
  simpl. repeat constructor. discriminate.
Qed.

Lemma to_uint_nonnil (n : nat) : Nat.to_uint n <> Decimal.Nil.
Proof.
  pose proof (DecimalNat.Unsigned.to_of (Nat.to_uint n)) as H.
  rewrite DecimalNat.Unsigned.of_to in H. rewrite H.
  apply DecimalFacts.unorm_nonnil.
Qed.

Lemma str_of_nat_inj (n m : nat) : str_of_nat n = str_of_nat m -> n = m.
Proof.
  unfold str_of_nat. intros H. apply lit_inj in H.
  apply (f_equal NilZero.uint_of_string) in H.
  rewrite !NilZero.usu in H by apply to_uint_nonnil.
  injection H as H. now apply DecimalNat.Unsigned.to_uint_inj.
Qed.

(** Two texts cut at the separator that no digit run contains. *)
Lemma separator_split (x y p q : list N) :
  Forall (fun c => c <> 95%N) x -> Forall (fun c => c <> 95%N) y ->
  x ++ 95%N :: p = y ++ 95%N :: q -> x = y /\ p = q.
Proof.
  intros Hx. revert y. induction Hx as [| c x Hc _ IH]; intros y Hy Heq.
  - destruct Hy as [| c' y Hc' _]; simpl in Heq.
    + now injection Heq as ->.
    + injection Heq as Hc _. now subst c'.
  - destruct Hy as [| c' y Hc' Hy]; simpl in Heq.
    + injection Heq as -> _. contradiction.
    + injection Heq as -> Heq. destruct (IH y Hy Heq) as [-> ->]. now split.
Qed.

Lemma cache_key_eq (text1 text2 : list N) :
  cache_key text1 = cache_key text2 ->
  firstn 100 text1 = firstn 100 text2 /\ length text1 = length text2.
Proof.
  unfold cache_key. intros H. apply (f_equal (@rev N)) in H.
  change (lit "_") with [95%N] in H.
  rewrite !rev_app_distr in H. simpl in H. rewrite <- !app_assoc in H.
  simpl in H.
  apply separator_split in H as [Hlen Hpre];
    try (apply Forall_rev, str_of_nat_no_underscore).
  split.
  - now rewrite <- (rev_involutive (firstn 100 text1)), Hpre, rev_involutive.
  - apply str_of_nat_inj.
    now rewrite <- (rev_involutive (str_of_nat _)), Hlen, rev_involutive.
Qed.

(** X7: Two texts share a cache key exactly when they have the same first 100
    characters and the same length. *)
Theorem cache_key_collision (text1 text2 : list N) :
  cache_key text1 = cache_key text2
  <-> firstn 100 text1 = firstn 100 text2 /\ length text1 = length text2.
Proof.
  split; [apply cache_key_eq |]. unfold cache_key. now intros [-> ->].
Qed.

(** X8: Texts of at most 100 characters never collide in the cache: a list of
    such texts has distinct keys. *)
Theorem cache_key_short_texts (texts : list (list N)) :
  Forall (fun text => length text <= 100)%nat texts -> distinct_keys texts.
Proof.
  intros Hshort r1 r2 H1 H2 Hkey.
  apply cache_key_eq in Hkey as [Hpre _].
  rewrite List.Forall_forall in Hshort.
  rewrite !firstn_all2 in Hpre by (apply Hshort; assumption).
  exact Hpre.
Qed.

(** ** Normal forms of [_clean_text] *)

Lemma collapse_fixed (in_run : bool) (s : list N) :
  single_spaced in_run s = true -> sub_runs isspace [32%N] in_run s = s.
Proof.
  revert in_run. induction s as [| c s IH]; intros in_run; [reflexivity |].
  simpl. destruct (isspace c).
  - intros H. apply andb_prop in H as [H1 H3].
    apply andb_prop in H1 as [Hc Hrun].
    apply N.eqb_eq in Hc. subst c.
    destruct in_run; [discriminate |]. simpl. now rewrite IH.
  - intros H. now rewrite IH.
Qed.

Lemma drop_while_fixed (cls : N -> bool) (s : list N) :
  (forall c, head s = Some c -> cls c = false) -> drop_while cls s = s.
Proof.
  destruct s as [| c s]; [reflexivity |]. intros H. simpl.
  now rewrite (H c eq_refl).
Qed.

Lemma strip_fixed (s : list N) :
  (forall c, head s = Some c \/ last s = Some c -> isspace c = false) ->
  strip s = s.
Proof.
  intros H. unfold strip.
  rewrite (drop_while_fixed isspace s) by (intros c Hc; apply H; now left).
  rewrite drop_while_fixed; [apply rev_involutive |].
  intros c Hc. apply H. right.
  rewrite <- last_rev_head, rev_involutive in Hc. exact Hc.
Qed.

Lemma filter_fixed (f : N -> bool) (s : list N) :
  Forall (fun c => f c = true) s -> List.filter f s = s.
Proof.
  induction 1 as [| c s Hc _ IH]; [reflexivity |].
  simpl. now rewrite Hc, IH.
Qed.

(** A text without markers, with single spaces only, no space at either
    end and at most 500 characters is left as it is. *)
Lemma clean_text_fixed (text : list N) :
  Forall (fun c => is_markup c = false) text ->
  single_spaced false text = true ->
  (forall c, head text = Some c \/ last text = Some c -> isspace c = false) ->
  (length text <= 500)%nat ->
  _clean_text text = text.
Proof.
  intros Hmark Hsp Hends Hlen. unfold _clean_text.
  rewrite sub_runs_markup, filter_fixed.
  2: { eapply Forall_impl; [exact Hmark |]. intros c Hc. simpl in Hc.
       now rewrite Hc. }
  rewrite (collapse_fixed false text Hsp).
  apply Nat.ltb_ge in Hlen. rewrite Hlen. now apply strip_fixed.
Qed.

(** What [_clean_text] returns is in that form. *)
Lemma clean_text_normal_form (text : list N) :
  Forall (fun c => is_markup c = false) (_clean_text text)
  /\ single_spaced false (_clean_text text) = true
  /\ (forall c, head (_clean_text text) = Some c
                \/ last (_clean_text text) = Some c -> isspace c = false)
  /\ (length (_clean_text text) <= 500)%nat.
Proof.
  unfold _clean_text.
  set (collapsed :=
         sub_runs isspace [32%N] false (sub_runs is_markup [] false text)).
  set (cut := if (500 <? length collapsed)%nat then firstn 500 collapsed
              else collapsed).
  assert (Hcut : exists rest, collapsed = cut ++ rest).
  { unfold cut. destruct (500 <? length collapsed)%nat.
    - exists (skipn 500 collapsed). now rewrite firstn_skipn.
    - exists []. now rewrite app_nil_r. }
  destruct Hcut as [rest Hcut].
  destruct (strip_decompose cut) as (pre & post & Hstrip & _ & _).
  split; [| split; [| split]].
  - assert (Hc : Forall (fun c => is_markup c = false) collapsed).
    { unfold collapsed. apply collapse_Forall; [reflexivity |].
      rewrite sub_runs_markup. apply Forall_forall. intros c Hin.
      apply list_elem_of_In, List.filter_In in Hin as [_ Hin].
      now apply negb_true_iff. }
    rewrite Hcut, Hstrip in Hc.
    apply Forall_app in Hc as [Hc _]. apply Forall_app in Hc as [_ Hc].
    now apply Forall_app in Hc as [Hc _].
  - pose proof (collapse_single_spaced false
                  (sub_runs is_markup [] false text)) as Hs.
    fold collapsed in Hs. rewrite Hcut, Hstrip in Hs.
    apply single_spaced_app_l in Hs. apply single_spaced_app_r in Hs.
    now apply single_spaced_app_l in Hs.
  - apply strip_ends.
  - etransitivity; [apply strip_length |]. unfold cut.
    destruct (500 <? length collapsed)%nat eqn:E.
    + rewrite length_firstn. lia.
    + apply Nat.ltb_ge in E. exact E.
Qed.

(** X9: Cleaning a cleaned text changes nothing. *)
Theorem clean_text_idempotent (text : list N) :
  _clean_text (_clean_text text) = _clean_text text.
Proof.
  destruct (clean_text_normal_form text) as (Hmark & Hsp & Hends & Hlen).
  now apply clean_text_fixed.
Qed.

(** X10: A text that is already clean (no marker, single spaces only, no space
    at the ends) and has at most 500 characters is embedded as it is. *)
Theorem clean_text_identity_on_clean (text : list N) :
  Forall (fun c => is_markup c = false) text ->
  single_spaced false text = true ->
  (forall c, head text = Some c \/ last text = Some c -> isspace c = false) ->
  (length text <= 500)%nat ->
  _clean_text text = text.
Proof. apply clean_text_fixed. Qed.

Lemma collapse_all_space (in_run : bool) (s : list N) :
  Forall (fun c => isspace c = true) s ->
  sub_runs isspace [32%N] in_run s
  = if in_run || is_empty s then [] else [32%N].
Proof.
  intros Hs. revert in_run. induction Hs as [| c s Hc _ IH]; intros in_run.
  - now destruct in_run.
  - simpl. rewrite Hc, IH. simpl. rewrite orb_false_r.
    now destruct in_run.
Qed.

Lemma collapse_app_content (in_run : bool) (pre post : list N) (c : N) :
  Forall (fun c => isspace c = true) pre -> isspace c = false ->
  sub_runs isspace [32%N] in_run (pre ++ c :: post)
  = sub_runs isspace [32%N] in_run pre
    ++ c :: sub_runs isspace [32%N] false post.
Proof.
  intros Hpre Hc. revert in_run.
  induction Hpre as [| x pre Hx _ IH]; intros in_run; simpl.
  - now rewrite Hc.
  - rewrite Hx, IH. now rewrite <- app_assoc.
Qed.

Lemma drop_while_snoc (cls : N -> bool) (l : list N) (c : N) :
  cls c = false -> drop_while cls (l ++ [c]) <> [].
Proof.
  intros Hc. induction l as [| x l IH]; simpl.
  - now rewrite Hc.
  - destruct (cls x); [exact IH | discriminate].
Qed.

Lemma first_content (blank : N -> bool) (text : list N) :
  Forall (fun c => blank c = true) text
  \/ exists pre c post,
       text = pre ++ c :: post
       /\ Forall (fun c => blank c = true) pre /\ blank c = false.
Proof.
  induction text as [| x text IH]; [left; constructor |].
  destruct (blank x) eqn:Hx.
  - destruct IH as [IH | (pre & c & post & -> & Hpre & Hc)].
    + left. now constructor.
    + right. exists (x :: pre), c, post. repeat split; [| exact Hc].
      now constructor.
  - right. exists [], x, text. repeat split; [constructor | exact Hx].
Qed.

Lemma filter_markup_blank (pre : list N) :
  Forall (fun c => isspace c || is_markup c = true) pre ->
  Forall (fun c => isspace c = true)
         (List.filter (fun c => negb (is_markup c)) pre).
Proof.
  induction 1 as [| x pre Hx _ IH]; simpl; [constructor |].
  destruct (is_markup x); simpl; [exact IH |].
  constructor; [| exact IH]. now rewrite orb_false_r in Hx.
Qed.

Lemma strip_content_nonempty (w rest : list N) (c : N) :
  Forall (fun c => isspace c = true) w -> isspace c = false ->
  strip (w ++ c :: rest) <> [].
Proof.
  intros Hw Hc Hempty. unfold strip in Hempty.
  apply (f_equal (@rev N)) in Hempty. rewrite rev_involutive in Hempty.
  simpl in Hempty.
  assert (Hdrop : drop_while isspace (w ++ c :: rest) = c :: rest).
  { clear -Hw Hc. induction Hw as [| x w Hx _ IH]; simpl.
    - now rewrite Hc.
    - now rewrite Hx. }
  rewrite Hdrop in Hempty. simpl in Hempty.
  now apply (drop_while_snoc isspace (rev rest) c Hc).
Qed.

(** X11: [_clean_text] returns the empty string exactly for the texts made of
    whitespace and marker characters only; any other character of the input
    keeps the result from being empty. *)
Theorem clean_text_empty_iff (text : list N) :
  _clean_text text = []
  <-> Forall (fun c => isspace c || is_markup c = true) text.
Proof.
  split.
  - intros Hempty.
    destruct (first_content (fun c => isspace c || is_markup c) text)
      as [Hblank | (pre & c & post & -> & Hpre & Hc)]; [exact Hblank |].
    exfalso. apply orb_false_elim in Hc as [Hsp Hmk].
    unfold _clean_text in Hempty. rewrite sub_runs_markup in Hempty.
    rewrite List.filter_app in Hempty. simpl in Hempty.
    rewrite Hmk in Hempty. simpl in Hempty.
    pose proof (filter_markup_blank pre Hpre) as Hpre'.
    rewrite (collapse_app_content false _ _ c Hpre' Hsp) in Hempty.
    rewrite (collapse_all_space false _ Hpre') in Hempty.
    simpl orb in Hempty. revert Hempty.
    destruct (is_empty _); destruct (500 <? _)%nat; simpl;
      first [ apply (strip_content_nonempty [32%N])
            | apply (strip_content_nonempty []) ];
      first [exact Hsp | repeat constructor].
  - intros Hblank. unfold _clean_text. rewrite sub_runs_markup.
    pose proof (filter_markup_blank text Hblank) as Hsp.
    rewrite (collapse_all_space false _ Hsp). simpl orb.
    now destruct (is_empty _).
Qed.

(** ** More on the numeric similarity *)

Lemma pairs_flat_skip_empty {A B} (f : list A -> list A -> list B)
  (number_lists : list (list A)) :
  (forall vs ws, is_empty vs || is_empty ws = true -> f vs ws = []) ->
  pairs_flat f (List.filter (fun l => negb (is_empty l)) number_lists)
  = pairs_flat f number_lists.
Proof.
  intros Hf.
  assert (Hrow : forall vs t,
            flat_map (f vs) (List.filter (fun l => negb (is_empty l)) t)
            = flat_map (f vs) t).
  { intros vs t. induction t as [| ws t IH]; [reflexivity |].
    simpl. destruct (is_empty ws) eqn:E; simpl.
    - rewrite (Hf vs ws) by (rewrite E; apply orb_true_r). exact IH.
    - now rewrite IH. }
  induction number_lists as [| vs t IH]; [reflexivity |].
  simpl. destruct (is_empty vs) eqn:E; simpl.
  - rewrite IH.
    assert (Hnil : flat_map (f vs) t = []).
    { clear -Hf E. induction t as [| ws t IHt]; [reflexivity |].
      simpl. rewrite (Hf vs ws) by now rewrite E. exact IHt. }
    now rewrite Hnil.
  - now rewrite Hrow, IH.
Qed.

Lemma concat_filter_nonempty {A} (ls : list (list A)) :
  concat (List.filter (fun l => negb (is_empty l)) ls) = concat ls.
Proof.
  induction ls as [| l ls IH]; [reflexivity |].
  simpl. destruct l; simpl; [exact IH | now rewrite IH].
Qed.

(** X12: Responses from which no value was extracted do not count: the
    similarity is that of the responses that have values. *)
Theorem numeric_similarity_ignores_empty
  (number_lists : list (list number)) :
  (_calculate_numeric_similarity
     (List.filter (fun numbers => negb (is_empty numbers)) number_lists)
   == _calculate_numeric_similarity number_lists)%Q.
Proof.
  rewrite !calculate_numeric_similarity_spec. unfold numeric_similarity_spec.
  rewrite concat_filter_nonempty, pairs_flat_skip_empty; [reflexivity |].
  intros vs ws H. now rewrite H.
Qed.

Lemma finite_values_in (vs : list number) (number_lists : list (list Q)) :
  In vs (finite_values number_lists) ->
  exists qs, vs = map Finite qs /\ In qs number_lists.
Proof.
  unfold finite_values. intros H.
  apply in_map_iff in H as (qs & <- & Hin). now exists qs.
Qed.

Lemma finite_values_is_empty (qs : list Q) :
  is_empty (map Finite qs) = is_empty qs.
Proof. now destruct qs. Qed.

Lemma cross_similarities_all_zero (vs ws : list Q) :
  Forall (fun v => v == 0)%Q vs -> Forall (fun v => v == 0)%Q ws ->
  cross_similarities (map Finite vs) (map Finite ws) = [].
Proof.
  intros Hvs Hws. unfold cross_similarities.
  induction Hvs as [| a vs Ha _ IH]; [reflexivity |].
  cbn [map flat_map]. rewrite IH, app_nil_r. clear IH.
  induction Hws as [| b ws Hb _ IH]; [reflexivity |].
  cbn [map flat_map]. rewrite IH.
  assert (Hskip : Qeq_bool (Qmax a b) 0 = true).
  { apply Qeq_bool_iff. rewrite Ha, Hb. reflexivity. }
  cbn [cross_pair]. now rewrite Hskip.
Qed.

(** X13: Values that are all zero give similarity 0.0, agreement included: every
    cross pair has [max(a, b) == 0] and is skipped. *)
Theorem numeric_similarity_all_zero (number_lists : list (list Q)) :
  Forall (Forall (fun v => v == 0)%Q) number_lists ->
  (_calculate_numeric_similarity (finite_values number_lists) == 0)%Q.
Proof.
  intros Hzero. rewrite calculate_numeric_similarity_spec.
  unfold numeric_similarity_spec.
  destruct (length (concat (finite_values number_lists)) <? 2)%nat;
    [reflexivity |].
  match goal with |- context [match ?b with _ => _ end] => set (bests := b) end.
  assert (Hall : Forall (fun q => q == 0)%Q bests).
  { apply pairs_flat_Forall_in. intros vs ws Hv Hw.
    apply finite_values_in in Hv as (qs1 & -> & Hq1).
    apply finite_values_in in Hw as (qs2 & -> & Hq2).
    destruct (is_empty _ || is_empty _); [constructor |].
    apply List.Forall_cons; [| constructor].
    unfold pair_similarity. rewrite cross_similarities_all_zero.
    - reflexivity.
    - eapply (proj1 (List.Forall_forall _ _) Hzero); eassumption.
    - eapply (proj1 (List.Forall_forall _ _) Hzero); eassumption. }
  destruct bests as [| q l] eqn:E; [reflexivity |].
  rewrite <- E in *. apply mean_constant; [rewrite E; discriminate |].
  exact Hall.
Qed.

Lemma cross_similarity_same (v : Q) : (0 < v)%Q -> (cross_similarity v v == 1)%Q.
Proof.
  intros Hv. unfold cross_similarity.
  assert (Hdiff : (Qabs (v - v) == 0)%Q).
  { assert (H0 : (v - v == 0)%Q) by ring. now rewrite H0. }
  rewrite Hdiff. unfold Qdiv. rewrite Qmult_0_l. now apply Q.max_r.
Qed.

Lemma skip_positive (a b : Q) :
  (0 < a)%Q -> Qeq_bool (Qmax a b) 0 = false.
Proof.
  intros Ha. apply not_true_is_false. intros H. apply Qeq_bool_iff in H.
  pose proof (Q.le_max_l a b). lra.
Qed.

Lemma pair_similarity_shared (vs ws : list number) (v : Q) :
  Forall nonneg vs -> Forall nonneg ws ->
  In (Finite v) vs -> In (Finite v) ws -> (0 < v)%Q ->
  (pair_similarity vs ws == 1)%Q.
Proof.
  intros Hvs Hws Hin1 Hin2 Hv. apply Qle_antisym.
  - now apply pair_similarity_bounds.
  - rewrite <- (cross_similarity_same v Hv). apply Qmax_list_in.
    apply cross_similarities_in. exists (Finite v), (Finite v).
    repeat split; try assumption.
    cbn [cross_pair]. rewrite (skip_positive v v Hv). now left.
Qed.

(** X14: Best-match heuristic: two responses that share one positive finite
    value have pair similarity 1.0, whatever their other values are, [inf]
    among them.  (A shared [inf] is no match: see
    [overflowing_numbers_do_not_match].) *)
Theorem best_similarity_shared_value (nums1 nums2 : list number) (v : Q) :
  Forall nonneg nums1 -> Forall nonneg nums2 ->
  In (Finite v) nums1 -> In (Finite v) nums2 -> (0 < v)%Q ->
  (best_similarity nums1 nums2 == 1)%Q.
Proof.
  intros. rewrite best_similarity_spec. now apply (pair_similarity_shared _ _ v).
Qed.

(** X15: When every response has the positive finite value [v] among its
    values (and there are at least two responses), the similarity is 1.0. *)
Theorem numeric_similarity_shared_value (number_lists : list (list number))
  (v : Q) :
  (2 <= length number_lists)%nat -> (0 < v)%Q ->
  Forall (fun numbers => Forall nonneg numbers /\ In (Finite v) numbers)
         number_lists ->
  (_calculate_numeric_similarity number_lists == 1)%Q.
Proof.
  intros Hlen Hv Hall. rewrite calculate_numeric_similarity_spec.
  unfold numeric_similarity_spec.
  rewrite List.Forall_forall in Hall.
  destruct number_lists as [| l1 [| l2 rest]]; simpl in Hlen; try lia.
  assert (Hin1 : In (Finite v) l1) by (apply Hall; now left).
  assert (Hin2 : In (Finite v) l2) by (apply Hall; right; now left).
  assert (Hcount : (length (concat (l1 :: l2 :: rest)) <? 2)%nat = false).
  { apply Nat.ltb_ge. simpl. rewrite !length_app.
    destruct l1; [contradiction |]. destruct l2; [contradiction |].
    simpl. lia. }
  rewrite Hcount.
  match goal with |- context [match ?b with _ => _ end] => set (bests := b) end.
  assert (Hbests : Forall (fun q => q == 1)%Q bests).
  { apply pairs_flat_Forall_in. intros vs ws Hvs Hws.
    destruct (Hall vs Hvs) as [Hp1 Hi1]. destruct (Hall ws Hws) as [Hp2 Hi2].
    destruct vs; [contradiction |]. destruct ws; [contradiction |].
    simpl. apply List.Forall_cons; [| constructor].
    now apply (pair_similarity_shared _ _ v). }
  assert (Hne : bests <> []).
  { unfold bests. simpl. destruct l1; [contradiction |].
    destruct l2; [contradiction |]. discriminate. }
  destruct bests as [| q l] eqn:E; [congruence |].
  rewrite <- E in *. now apply mean_constant.
Qed.

Lemma cross_similarity_range (lo hi a b : Q) :
  (0 < lo)%Q -> (lo <= a /\ a <= hi)%Q -> (lo <= b /\ b <= hi)%Q ->
  (lo / hi <= cross_similarity a b)%Q.
Proof.
  intros Hlo [Ha1 Ha2] [Hb1 Hb2]. unfold cross_similarity.
  eapply Qle_trans; [| apply Q.le_max_r].
  set (m := Qmax a b).
  assert (Hm1 : (lo <= m)%Q).
  { eapply Qle_trans; [exact Ha1 | apply Q.le_max_l]. }
  assert (Hm2 : (m <= hi)%Q) by (apply Q.max_lub; assumption).
  assert (Hma : (a <= m)%Q) by apply Q.le_max_l.
  assert (Hmb : (b <= m)%Q) by apply Q.le_max_r.
  assert (Hmpos : (0 < m)%Q) by lra.
  assert (Hhipos : (0 < hi)%Q) by lra.
  assert (Habs : (Qabs (a - b) <= m - lo)%Q).
  { apply Qabs_case; intros; lra. }
  assert (Hd : (Qabs (a - b) / m <= (m - lo) / m)%Q).
  { apply Qle_shift_div_l; [exact Hmpos |].
    unfold Qdiv. rewrite <- Qmult_assoc, (Qmult_comm (/ m)).
    rewrite Qmult_inv_r by lra. lra. }
  assert (Hone : ((m - lo) / m == 1 - lo / m)%Q).
  { field. lra. }
  assert (Hfrac : (lo / hi <= lo / m)%Q).
  { apply Qle_shift_div_l; [exact Hmpos |].
    assert (Hswap : (lo / hi * m == lo * m / hi)%Q) by (field; lra).
    rewrite Hswap. apply Qle_shift_div_r; [exact Hhipos |]. nra. }
  lra.
Qed.

Lemma pair_similarity_range (lo hi : Q) (vs ws : list Q) :
  (0 < lo)%Q ->
  Forall (fun v => lo <= v /\ v <= hi)%Q vs ->
  Forall (fun v => lo <= v /\ v <= hi)%Q ws ->
  vs <> [] -> ws <> [] ->
  (lo / hi <= pair_similarity (map Finite vs) (map Finite ws))%Q.
Proof.
  intros Hlo Hvs Hws Hne1 Hne2.
  destruct vs as [| a vs]; [congruence |]. destruct ws as [| b ws];
    [congruence |].
  apply Forall_cons in Hvs as [Ha _]. apply Forall_cons in Hws as [Hb _].
  eapply Qle_trans; [apply (cross_similarity_range lo hi a b); assumption |].
  apply Qmax_list_in, cross_similarities_in. exists (Finite a), (Finite b).
  repeat split; try (now left).
  cbn [cross_pair]. rewrite (skip_positive a b); [now left |].
  destruct Ha. lra.
Qed.

Lemma numeric_similarity_spec_range (lo hi : Q)
  (number_lists : list (list Q)) :
  (0 < lo)%Q ->
  Forall (Forall (fun v => lo <= v /\ v <= hi)%Q) number_lists ->
  (numeric_similarity_spec (finite_values number_lists) == 0
   \/ lo / hi <= numeric_similarity_spec (finite_values number_lists))%Q.
Proof.
  intros Hlo Hall. unfold numeric_similarity_spec.
  destruct (length (concat (finite_values number_lists)) <? 2)%nat;
    [now left |].
  match goal with |- context [match ?b with _ => _ end] => set (bests := b) end.
  assert (Hbests : Forall (fun q => lo / hi <= q /\ q <= 1)%Q bests).
  { apply pairs_flat_Forall_in. intros vs ws Hv Hw.
    apply finite_values_in in Hv as (qs1 & -> & Hq1).
    apply finite_values_in in Hw as (qs2 & -> & Hq2).
    rewrite List.Forall_forall in Hall.
    pose proof (Hall qs1 Hq1) as Hvs. pose proof (Hall qs2 Hq2) as Hws.
    rewrite !finite_values_is_empty.
    destruct (is_empty qs1 || is_empty qs2) eqn:E; [constructor |].
    apply orb_false_elim in E as [E1 E2].
    apply List.Forall_cons; [| constructor]. split.
    - apply pair_similarity_range; try assumption.
      + intros ->. discriminate.
      + intros ->. discriminate.
    - apply pair_similarity_bounds; apply finite_nonneg.
      + eapply Forall_impl; [exact Hvs |]. intros v [Hv1 _]. simpl. lra.
      + eapply Forall_impl; [exact Hws |]. intros v [Hv1 _]. simpl. lra. }
  destruct bests as [| q l] eqn:E; [now left |].
  right. rewrite <- E in *.
  apply mean_bounds with (hi := 1%Q); [rewrite E; discriminate | exact Hbests].
Qed.

(** X16: Values that lie between [lo > 0] and [hi] cannot be told apart below
    [lo / hi]: the similarity is 0.0 (nothing to compare) or at least
    [lo / hi]. *)
Theorem numeric_similarity_range_floor (lo hi : Q)
  (number_lists : list (list Q)) :
  (0 < lo)%Q ->
  Forall (Forall (fun v => lo <= v /\ v <= hi)%Q) number_lists ->
  (_calculate_numeric_similarity (finite_values number_lists) == 0
   \/ lo / hi <= _calculate_numeric_similarity (finite_values number_lists))%Q.
Proof.
  intros Hlo Hall.
  destruct (numeric_similarity_spec_range lo hi number_lists Hlo Hall)
    as [H | H]; [left | right];
    now rewrite calculate_numeric_similarity_spec.
Qed.

Section Years.
Context {U : Unicode}.
Hypothesis decimal_digit : forall c v, decimal c = Some v -> (v <= 9)%N.

Lemma search_year_range (s : list N) (year : N) :
  search_year s = Some year -> (2000 <= year <= 2099)%N.
Proof using decimal_digit.
  induction s as [| c s IH]; [discriminate |].
  cbn [search_year]. destruct (year_here (c :: s)) as [y |] eqn:E;
    [| exact IH].
  intros [= <-]. unfold year_here in E.
  destruct c as [| p]; try discriminate.
  repeat (destruct p as [p | p |]; try discriminate).
  destruct s as [| c2 s]; [discriminate |].
  destruct c2 as [| p]; try discriminate.
  repeat (destruct p as [p | p |]; try discriminate).
  destruct s as [| d1 [| d2 s]]; try discriminate.
  destruct (decimal d1) as [v1 |] eqn:E1; [| discriminate].
  destruct (decimal d2) as [v2 |] eqn:E2; [| discriminate].
  injection E as <-.
  apply decimal_digit in E1, E2. lia.
Qed.

Lemma extract_dates_range (ents : list (list N * list N)) :
  Forall (fun v => 2000 <= v /\ v <= 2099)%Q (extract_dates ents).
Proof using decimal_digit.
  unfold extract_dates. apply Forall_flat_map, Forall_forall. intros ent _.
  destruct (str_eqb _ _); [| constructor].
  destruct (search_year (snd ent)) as [year |] eqn:E; [| constructor].
  apply List.Forall_cons; [| constructor].
  apply search_year_range in E.
  change 2000%Q with (inject_Z 2000). change 2099%Q with (inject_Z 2099).
  rewrite <- !Zle_Qle. lia.
Qed.

(** X17: Only years from 2000 to 2099 are read from [DATE] entities, so the
    date similarity of any responses is 0.0 or at least 2000/2099: two
    responses that both name a year get more than 0.95 however far apart
    the years are. *)
Theorem date_similarity_floor (docs : list (list (list N * list N))) :
  Forall (Forall (fun v => 2000 <= v /\ v <= 2099)%Q)
         (map extract_dates docs)
  /\ (_calculate_numeric_similarity (finite_values (map extract_dates docs))
      == 0
      \/ 2000 # 2099 <= _calculate_numeric_similarity
                          (finite_values (map extract_dates docs)))%Q.
Proof using decimal_digit.
  assert (Hall : Forall (Forall (fun v => 2000 <= v /\ v <= 2099)%Q)
                        (map extract_dates docs)).
  { apply Forall_map, Forall_forall. intros d _. apply extract_dates_range. }
  split; [exact Hall |].
  destruct (numeric_similarity_spec_range 2000 2099 _ eq_refl Hall)
    as [H | H]; [left | right];
    rewrite calculate_numeric_similarity_spec; [exact H |].
  eapply Qle_trans; [| exact H]. discriminate.
Qed.

End Years.

(** ** More on the penalty and the score *)

Section PenaltyAndScore.
Context {U : Unicode} {M : Models}.

Lemma detect_contradictions_range (responses : list (list N)) :
  (0 <= _detect_contradictions responses
   /\ _detect_contradictions responses <= 0.5)%Q.
Proof.
  rewrite detect_contradictions_mean.
  destruct (contradiction_signals responses) as [| q l] eqn:E.
  - split; discriminate.
  - destruct (mean_signals_bounds responses) as [Hlo Hhi];
      [rewrite E; discriminate |].
    rewrite E in *. rewrite Q.min_r by lra. split; lra.
Qed.

(** X19: There is no small penalty: the penalty is 0.0 when no signal was
    recorded and lies between 0.3 and 0.5 as soon as one was. *)
Theorem detect_contradictions_gap (responses : list (list N)) :
  (contradiction_signals responses = []
   /\ _detect_contradictions responses = 0%Q)
  \/ (contradiction_signals responses <> []
      /\ (0.3 <= _detect_contradictions responses
          /\ _detect_contradictions responses <= 0.5)%Q).
Proof.
  destruct (contradiction_signals responses) as [| q l] eqn:E.
  - left. split; [reflexivity |].
    unfold _detect_contradictions, detect_contradictions_except,
    detect_contradictions_body.
    now rewrite E.
  - right. split; [discriminate |].
    destruct (mean_signals_bounds responses) as [Hlo Hhi];
      [rewrite E; discriminate |].
    rewrite detect_contradictions_mean.
    rewrite Q.min_r by lra. now split.
Qed.

(** X20: For two responses the penalty is read off the two tests: 0.4 when both
    fire, 0.5 for the negation asymmetry alone, 0.3 for the connectives
    alone, 0.0 otherwise. *)
Theorem detect_contradictions_two (r1 r2 : list N) :
  (_detect_contradictions [r1; r2]
   == match (2 <? Z.abs (Z.of_nat (negation_count r1)
                         - Z.of_nat (negation_count r2)))%Z,
            (1 <? connective_count r1 + connective_count r2)%nat with
      | true, true => 0.4
      | true, false => 0.5
      | false, true => 0.3
      | false, false => 0
      end)%Q.
Proof.
  unfold _detect_contradictions, detect_contradictions_except,
    detect_contradictions_body.
  rewrite contradiction_signals_pairs. simpl. rewrite app_nil_r.
  unfold recorded_signals.
  destruct (_ <? _)%Z; destruct (_ <? _)%nat; reflexivity.
Qed.

(** X22: What the two corrections can do to the mean similarity: with at least
    two responses and a pairwise [cosine_similarity] that answered, the
    score is 0.0 when the mean similarity is not positive, and otherwise
    lies between min(1, half the mean) and min(1, 1.5 times the mean). *)
Theorem measure_consensus_sandwich (c : Emb -> Emb -> Q)
  (cache : gmap (list N) Emb) (responses : list (list N)) (es : list Emb) :
  pairwise c -> (2 <= length responses)%nat ->
  snd (_get_embeddings cache responses) = Some es ->
  ((mean (pairs_flat (fun a b => [c a b]) es) <= 0 ->
    fst (measure_consensus cache responses) == 0)
   /\ (0 <= mean (pairs_flat (fun a b => [c a b]) es) ->
       Qmin 1 (0.5 * mean (pairs_flat (fun a b => [c a b]) es))
       <= fst (measure_consensus cache responses)
       /\ fst (measure_consensus cache responses)
          <= Qmin 1 (1.5 * mean (pairs_flat (fun a b => [c a b]) es))))%Q.
Proof.
  intros Hc Hlen Hes.
  rewrite (measure_consensus_pairwise c cache responses es Hc Hlen Hes).
  unfold final_score. rewrite guarded_mean.
  set (base := mean (pairs_flat (fun a b => [c a b]) es)).
  destruct (compare_entities_bounds responses) as [Ha1 Ha2].
  set (adj := _compare_entities responses) in *.
  assert (Hp : (0 <= _detect_contradictions responses
                /\ _detect_contradictions responses <= 0.5)%Q).
  { apply detect_contradictions_range. }
  set (pen := _detect_contradictions responses) in *.
  assert (Hk : (0.5 <= adj * (1 - pen) /\ adj * (1 - pen) <= 1.5)%Q).
  { split; nra. }
  assert (Heq : (base * adj * (1 - pen) == base * (adj * (1 - pen)))%Q)
    by ring.
  rewrite Heq. set (k := (adj * (1 - pen))%Q) in *. destruct Hk as [Hk1 Hk2].
  split.
  - intros Hbase. apply Q.max_l.
    eapply Qle_trans; [apply Q.le_min_r |]. nra.
  - intros Hbase. split.
    + eapply Qle_trans; [| apply Q.le_max_r].
      apply Q.min_glb; [apply Q.le_min_l |].
      eapply Qle_trans; [apply Q.le_min_r |]. nra.
    + apply Q.max_lub.
      * apply Q.min_glb; [discriminate | nra].
      * apply Q.min_glb; [apply Q.le_min_l |].
        eapply Qle_trans; [apply Q.le_min_r |]. nra.
Qed.

End PenaltyAndScore.

(** ** The command line *)

Lemma drop_while_all (cls : N -> bool) (s : list N) :
  Forall (fun c => cls c = true) s -> drop_while cls s = [].
Proof.
  induction 1 as [| c s Hc _ IH]; [reflexivity |]. simpl. now rewrite Hc.
Qed.

Lemma strip_empty_iff (s : list N) :
  strip s = [] <-> Forall (fun c => isspace c = true) s.
Proof.
  split.
  - intros Hempty.
    destruct (first_content isspace s)
      as [Hblank | (pre & c & post & -> & Hpre & Hc)]; [exact Hblank |].
    exfalso. now apply (strip_content_nonempty pre post c).
  - intros Hblank. unfold strip. now rewrite (drop_while_all _ _ Hblank).
Qed.

Lemma round_half_even_near (x : Q) :
  (Qabs (inject_Z (round_half_even x) - x) <= 1 # 2)%Q.
Proof.
  unfold round_half_even.
  pose proof (Qfloor_le x) as Hlo. pose proof (Qlt_floor x) as Hhi.
  rewrite inject_Z_plus in Hhi. change (inject_Z 1) with 1%Q in Hhi.
  set (f := Qfloor x) in *.
  destruct (x - inject_Z f ?= 1 # 2)%Q eqn:E.
  - apply Qeq_alt in E.
    destruct (Z.even f); [| rewrite inject_Z_plus;
                            change (inject_Z 1) with 1%Q];
      apply Qabs_case; intros; lra.
  - apply Qlt_alt in E. apply Qabs_case; intros; lra.
  - apply Qgt_alt in E. rewrite inject_Z_plus.
    change (inject_Z 1) with 1%Q. apply Qabs_case; intros; lra.
Qed.

Lemma round_half_even_range (x : Q) (b : Z) :
  (0 <= x)%Q -> (x <= inject_Z b)%Q ->
  (0 <= round_half_even x <= b)%Z.
Proof.
  intros H0 Hb. unfold round_half_even.
  pose proof (Qfloor_le x) as Hlo. pose proof (Qlt_floor x) as Hhi.
  assert (Hf0 : (0 <= Qfloor x)%Z).
  { change 0%Z with (Qfloor (inject_Z 0)). rewrite Qfloor_Z.
    rewrite <- (Qfloor_Z 0). now apply Qfloor_resp_le. }
  assert (Hfb : (Qfloor x <= b)%Z).
  { rewrite <- (Qfloor_Z b). now apply Qfloor_resp_le. }
  set (f := Qfloor x) in *.
  assert (Hstep : (1 # 2 <= x - inject_Z f)%Q -> (f + 1 <= b)%Z).
  { intros Hhalf. destruct (Z.eq_dec f b) as [-> | Hne]; [lra | lia]. }
  destruct (x - inject_Z f ?= 1 # 2)%Q eqn:E.
  - apply Qeq_alt in E. destruct (Z.even f); [lia |].
    split; [lia | apply Hstep; lra].
  - lia.
  - apply Qgt_alt in E. split; [lia | apply Hstep; lra].
Qed.

Lemma round4_near (x : Q) : (Qabs (round4 x - x) <= 1 # 20000)%Q.
Proof.
  unfold round4. pose proof (round_half_even_near (x * 10000)) as H.
  set (k := inject_Z (round_half_even (x * 10000))) in *.
  assert (Heq : (k / 10000 - x == (k - x * 10000) * (1 # 10000))%Q) by field.
  rewrite Heq. revert H. apply Qabs_case; intros H1 H2;
    apply Qabs_case; intros H3; lra.
Qed.

Lemma round4_unit (x : Q) :
  (0 <= x)%Q -> (x <= 1)%Q ->
  exists k : Z, (0 <= k <= 10000)%Z /\ round4 x = (inject_Z k / 10000)%Q.
Proof.
  intros H0 H1. exists (round_half_even (x * 10000)). split; [| reflexivity].
  apply round_half_even_range; [lra |].
  change (inject_Z 10000) with 10000%Q. lra.
Qed.

Section MainProperties.
Context {U : Unicode}.
Variable json_loads : list N -> loads_result.

Lemma measure_consensus_keys_bounds {M : Models}
  (items : list (list N * json)) :
  (0 <= measure_consensus_keys items /\ measure_consensus_keys items <= 1)%Q.
Proof.
  unfold measure_consensus_keys. cbv zeta.
  destruct (length (map fst items) <? 2)%nat; [split; discriminate |].
  destruct (snd (_get_embeddings ∅ (map fst items))) as [embeddings |];
    cbn [mbind option_bind]; [| split; discriminate].
  destruct (cosine_similarity embeddings) as [similarity_matrix |];
    cbn [mbind option_bind]; [| split; discriminate].
  destruct (upper_triangle similarity_matrix (length (map fst items)));
    cbn [mbind option_bind]; [| split; discriminate].
  apply clamp_bounds.
Qed.

Lemma measure_consensus_value_bounds {M : Models} (responses : json) :
  (0 <= measure_consensus_value responses
   /\ measure_consensus_value responses <= 1)%Q.
Proof.
  destruct responses; cbn [measure_consensus_value];
    try (split; discriminate).
  - apply measure_consensus_bounds.
  - destruct (length items <? 2)%nat; [split; discriminate |].
    destruct (mapM as_str items); [| split; discriminate].
    apply measure_consensus_bounds.
  - apply measure_consensus_keys_bounds.
Qed.

Lemma mapM_as_str (texts : list (list N)) :
  mapM as_str (map JStr texts) = Some texts.
Proof.
  induction texts as [| t texts IH]; [reflexivity |].
  simpl map. now rewrite mapM_cons, IH.
Qed.

(** X23: [main] answers "No input provided" exactly when standard input holds
    nothing but whitespace, whether or not the models can be loaded. *)
Theorem main_blank_input (engine : option Models) (stdin : list N) :
  main json_loads engine stdin = InputError (lit "No input provided")
  <-> Forall (fun c => isspace c = true) stdin.
Proof.
  rewrite <- strip_empty_iff. unfold main.
  destruct (strip stdin) as [| c s] eqn:E; [split; reflexivity |].
  cbn [is_empty]. split; [| discriminate].
  destruct (json_loads (c :: s)) as [[] | |]; try discriminate;
    match goal with
    | |- context [truthy ?v] => destruct (truthy v)
    end; cbn [negb];
    try (intros [= H]; apply lit_inj in H; discriminate);
    destruct engine; try discriminate;
    match goal with
    | |- context [py_len ?v] => destruct (py_len v)
    end; discriminate.
Qed.

(** X24: Standard input that is not JSON is one response: with the models
    loaded, [main] reports the score 1.0 for one response. *)
Theorem main_plain_text (M : Models) (stdin : list N) :
  strip stdin <> [] ->
  json_loads (strip stdin) = JSONDecodeError ->
  exists score,
    main json_loads (Some M) stdin = Success score 1
    /\ (score == 1)%Q.
Proof.
  intros Hne Hjson. exists (round4 1). split; [| reflexivity].
  unfold main. destruct (strip stdin) as [| c s]; [congruence |].
  cbn [is_empty]. now rewrite Hjson.
Qed.

(** X25: A result record always holds a score between 0 and 1 with four
    decimals and a count of at least one response. *)
Theorem main_success_record (engine : option Models) (stdin : list N)
  (score : Q) (n : nat) :
  main json_loads engine stdin = Success score n ->
  (1 <= n)%nat
  /\ (0 <= score /\ score <= 1)%Q
  /\ exists k : Z, (0 <= k <= 10000)%Z /\ score = (inject_Z k / 10000)%Q.
Proof.
  unfold main. destruct (is_empty (strip stdin)); [discriminate |].
  match goal with
  | |- context [match ?p with Some _ => _ | None => RuntimeFailure end] =>
      destruct p as [responses |]
  end; [| discriminate].
  destruct (truthy responses) eqn:Htruthy; cbn [negb]; [| discriminate].
  destruct engine as [M |]; [| discriminate].
  destruct (py_len responses) as [len |] eqn:Hlen; [| discriminate].
  intros [= <- <-].
  destruct (@measure_consensus_value_bounds M responses) as [H0 H1].
  destruct (round4_unit _ H0 H1) as (k & Hk & Hround).
  split; [| split].
  - destruct responses as [| | | [| ] | [| ] | [| ]]; try discriminate;
      injection Hlen as <-; simpl; lia.
  - rewrite Hround. destruct Hk as [Hk0 Hk1].
    rewrite Zle_Qle in Hk0, Hk1.
    change (inject_Z 0) with 0%Q in Hk0.
    change (inject_Z 10000) with 10000%Q in Hk1.
    split.
    + apply Qle_shift_div_l; [reflexivity | lra].
    + apply Qle_shift_div_r; [reflexivity | lra].
  - now exists k.
Qed.

(** X26: The wire contract: for an object whose ["responses"] is a non-empty
    list of strings, [main] reports the score of a fresh engine on these
    strings, rounded to four decimals (so at most 0.00005 away from it),
    and their number. *)
Theorem main_scores_responses (M : Models) (stdin : list N)
  (items : list (list N * json)) (texts : list (list N)) :
  strip stdin <> [] ->
  json_loads (strip stdin) = Loaded (JObj items) ->
  dict_get items (lit "responses") (JArr []) = JArr (map JStr texts) ->
  texts <> [] ->
  main json_loads (Some M) stdin
  = Success (round4 (fst (measure_consensus ∅ texts))) (length texts)
  /\ (Qabs (round4 (fst (measure_consensus ∅ texts))
            - fst (measure_consensus ∅ texts)) <= 1 # 20000)%Q.
Proof.
  intros Hne Hjson Hget Htexts. split; [| apply round4_near].
  unfold main. destruct (strip stdin) as [| c s]; [congruence |].
  cbn [is_empty]. rewrite Hjson, Hget.
  destruct texts as [| t texts]; [congruence |].
  cbn [truthy map is_empty negb py_len].
  change (JStr t :: map JStr texts) with (map JStr (t :: texts)).
  rewrite length_map. f_equal. f_equal.
  cbn [measure_consensus_value]. rewrite length_map, mapM_as_str.
  destruct (length (t :: texts) <? 2)%nat eqn:Hguard; [| reflexivity].
  unfold measure_consensus. now rewrite Hguard.
Qed.

(** X27: The engine is built only once the input has been accepted: whatever
    [main] answers without models, short of failing to load them, it
    answers with them too. *)
Theorem main_engine_after_input (engine : option Models) (stdin : list N) :
  main json_loads None stdin <> EngineFailure ->
  main json_loads engine stdin = main json_loads None stdin.
Proof.
  unfold main. destruct (is_empty (strip stdin)); [reflexivity |].
  match goal with
  | |- context [match ?p with Some _ => _ | None => RuntimeFailure end] =>
      destruct p as [responses |]
  end; [| reflexivity].
  destruct (negb (truthy responses)); [reflexivity | congruence].
Qed.

End MainProperties.

(** ** The similarity of values is relative *)















(** ** Whole words only *)

Lemma str_eqb_eq (a b : list N) : str_eqb a b = true <-> a = b.
Proof.
  revert b. induction a as [| x a IH]; intros [| y b]; simpl;
    try (split; [discriminate | congruence]); [split; reflexivity |].
  rewrite andb_true_iff, N.eqb_eq, IH. split; [intros [-> ->] | intros [= -> ->]];
    auto.
Qed.

Section WholeWords.
Context {U : Unicode}.

(** After a word character, inside a run of word characters, nothing
    starts. *)
Lemma findall_from_inside_word (alts : list (list N)) (s : list N) :
  Forall (fun c => is_word c = true) s ->
  forall p skip, is_word p = true -> findall_from alts (Some p) skip s = 0%nat.
Proof.
  induction 1 as [| c s Hc _ IH]; intros p skip Hp; [reflexivity |].
  simpl. destruct skip as [| k]; [| now apply IH].
  unfold boundary. simpl. rewrite Hp, Hc. simpl. now apply IH.
Qed.

Lemma starts_with_app (w s : list N) :
  starts_with w s = true -> s = w ++ skipn (length w) s.
Proof.
  revert s. induction w as [| a w IH]; intros s H; [reflexivity |].
  destruct s as [| b s]; [discriminate |]. simpl in H.
  apply andb_prop in H as [Hab Hrest]. apply N.eqb_eq in Hab. subst b.
  simpl. f_equal. now apply IH.
Qed.

Lemma starts_with_refl (s : list N) : starts_with s s = true.
Proof.
  induction s as [| c s IH]; [reflexivity |]. simpl.
  now rewrite N.eqb_refl, IH.
Qed.

Lemma last_word (w : list N) (prev : option N) :
  w <> [] -> Forall (fun c => is_word c = true) w ->
  word_at (List.last (map Some w) prev) = true.
Proof.
  intros Hne Hw. induction Hw as [| c w Hc Hw IH]; [congruence |].
  destruct w as [| c' w]; [exact Hc |].
  change (List.last (map Some (c :: c' :: w)) prev)
    with (List.last (map Some (c' :: w)) prev).
  apply IH. discriminate.
Qed.

(** On a text that is one word, an alternative fits only if it is the
    word. *)
Lemma match_here_single_word (alts : list (list N)) (s : list N) :
  Forall (fun w => w <> []) alts ->
  Forall (fun c => is_word c = true) s ->
  match_here alts None s
  = if existsb (str_eqb s) alts then Some (length s) else None.
Proof.
  intros Halts Hs. induction Halts as [| w alts Hw _ IH]; [reflexivity |].
  simpl. destruct (str_eqb s w) eqn:E.
  - apply str_eqb_eq in E. subst w. rewrite starts_with_refl.
    rewrite skipn_all. unfold boundary.
    rewrite (last_word s None Hw Hs). reflexivity.
  - simpl. rewrite IH.
    destruct (starts_with w s) eqn:Hpre; [| reflexivity].
    apply starts_with_app in Hpre.
    assert (Hparts : Forall (fun c => is_word c = true)
                       (w ++ skipn (length w) s)) by now rewrite <- Hpre.
    apply Forall_app in Hparts as [Hw' Hpost].
    destruct (skipn (length w) s) as [| c post] eqn:Hskip.
    + rewrite app_nil_r in Hpre. subst w.
      rewrite (proj2 (str_eqb_eq s s) eq_refl) in E. discriminate.
    + apply Forall_cons in Hpost as [Hc _]. unfold boundary.
      rewrite (last_word w None Hw Hw'). simpl. rewrite Hc. reflexivity.
Qed.

Lemma findall_count_single_word (alts : list (list N)) (s : list N) :
  Forall (fun w => w <> []) alts ->
  s <> [] -> Forall (fun c => is_word c = true) s ->
  findall_count alts s = if existsb (str_eqb s) alts then 1%nat else 0%nat.
Proof.
  intros Halts Hne Hs. unfold findall_count.
  destruct s as [| c rest]; [congruence |].
  pose proof Hs as Hall. apply Forall_cons in Hs as [Hc Hrest].
  cbn [findall_from]. unfold boundary at 1. simpl word_at. rewrite Hc.
  simpl xorb. cbv iota.
  rewrite (match_here_single_word alts (c :: rest) Halts Hall).
  destruct (existsb (str_eqb (c :: rest)) alts);
    now rewrite findall_from_inside_word.
Qed.

(** X21: Words are matched whole: for a response that is a single word, each
    pattern counts 1 when the lower-cased word is one of its words and 0
    otherwise, so a word that only contains a negation or a connective is
    not counted. *)
Theorem single_word_counts (r : list N) :
  lower r <> [] -> Forall (fun c => is_word c = true) (lower r) ->
  negation_count r
  = list_sum (map (fun pattern =>
                     if existsb (str_eqb (lower r)) pattern
                     then 1%nat else 0%nat) negation_patterns)
  /\ connective_count r
     = list_sum (map (fun marker =>
                        if existsb (str_eqb (lower r)) marker
                        then 1%nat else 0%nat) disagreement_markers).
Proof.
  intros Hne Hword. unfold negation_count, neg_count, connective_count.
  split; f_equal; apply map_ext_in; intros pattern Hin;
    apply findall_count_single_word; try assumption;
    repeat (destruct Hin as [<- | Hin]; [repeat constructor; discriminate |]);
    destruct Hin.
Qed.

End WholeWords.

(** ** Concrete runs of the further properties *)

Lemma get_embeddings_cache_grows_witness :
  ({[ cache_key (lit "hi") := [0%Q; 1%Q] ]} : gmap (list N) (list Q))
    !! cache_key (lit "hi") = Some [0%Q; 1%Q]
  /\ fst (@_get_embeddings axis_models
            {[ cache_key (lit "hi") := [0%Q; 1%Q] ]} [lit "yo"; lit "hi"])
       !! cache_key (lit "hi") = Some [0%Q; 1%Q].
Proof.
  assert (H : ({[ cache_key (lit "hi") := [0%Q; 1%Q] ]}
                 : gmap (list N) (list Q))
                !! cache_key (lit "hi") = Some [0%Q; 1%Q])
    by apply lookup_singleton_eq.
  split; [exact H |].
  exact (@get_embeddings_cache_grows axis_models _ [lit "yo"; lit "hi"]
           _ _ H).
Defined.

Lemma get_embeddings_returns_cached_witness :
  @_get_embeddings axis_models ∅ [lit "yes"; lit "no"]
  = (fst (@_get_embeddings axis_models ∅ [lit "yes"; lit "no"]),
     Some [[1%Q; 0%Q]; [1%Q; 0%Q]])
  /\ length [[1%Q; 0%Q]; [1%Q; 0%Q]] = length [lit "yes"; lit "no"]
  /\ Forall2 (fun text e =>
                fst (@_get_embeddings axis_models ∅ [lit "yes"; lit "no"])
                  !! cache_key text = Some e)
             [lit "yes"; lit "no"] [[1%Q; 0%Q]; [1%Q; 0%Q]].
Proof.
  assert (H : @_get_embeddings axis_models ∅ [lit "yes"; lit "no"]
              = (fst (@_get_embeddings axis_models ∅ [lit "yes"; lit "no"]),
                 Some [[1%Q; 0%Q]; [1%Q; 0%Q]])) by reflexivity.
  split; [exact H |].
  exact (@get_embeddings_returns_cached axis_models _ _ _ _ H).
Defined.

Lemma get_embeddings_same_key_witness :
  @_get_embeddings axis_models ∅ [text_x; text_y]
  = (fst (@_get_embeddings axis_models ∅ [text_x; text_y]),
     Some [[1%Q; 0%Q]; [1%Q; 0%Q]])
  /\ cache_key text_x = cache_key text_y
  /\ [1%Q; 0%Q] = [1%Q; 0%Q].
Proof.
  assert (H : @_get_embeddings axis_models ∅ [text_x; text_y]
              = (fst (@_get_embeddings axis_models ∅ [text_x; text_y]),
                 Some [[1%Q; 0%Q]; [1%Q; 0%Q]])) by reflexivity.
  assert (Hkey : cache_key text_x = cache_key text_y) by reflexivity.
  split; [exact H |]. split; [exact Hkey |].
  exact (@get_embeddings_same_key axis_models _ _ _ _ 0%nat 1%nat
           text_x text_y _ _ H eq_refl eq_refl eq_refl eq_refl Hkey).
Defined.

Lemma get_embeddings_all_hits_witness :
  Forall2 (fun text e =>
             ({[ cache_key (lit "hi") := [0%Q; 1%Q] ]}
                : gmap (list N) (list Q)) !! cache_key text = Some e)
          [lit "hi"; lit "hi"] [[0%Q; 1%Q]; [0%Q; 1%Q]]
  /\ @_get_embeddings (with_encoder axis_models (fun _ => None))
       {[ cache_key (lit "hi") := [0%Q; 1%Q] ]} [lit "hi"; lit "hi"]
     = ({[ cache_key (lit "hi") := [0%Q; 1%Q] ]},
        Some [[0%Q; 1%Q]; [0%Q; 1%Q]]).
Proof.
  assert (H : Forall2 (fun text e =>
                ({[ cache_key (lit "hi") := [0%Q; 1%Q] ]}
                   : gmap (list N) (list Q)) !! cache_key text = Some e)
              [lit "hi"; lit "hi"] [[0%Q; 1%Q]; [0%Q; 1%Q]]).
  { repeat (apply List.Forall2_cons; [apply lookup_singleton_eq |]).
    apply List.Forall2_nil. }
  split; [exact H |].
  exact (get_embeddings_all_hits axis_models (fun _ => None) _ _ _ H).
Defined.

Lemma cache_key_short_texts_witness :
  Forall (fun text => length text <= 100)%nat [lit "yes"; lit "no"]
  /\ distinct_keys [lit "yes"; lit "no"].
Proof.
  assert (H : Forall (fun text => length text <= 100)%nat
                     [lit "yes"; lit "no"]).
  { repeat (apply List.Forall_cons; [simpl; lia |]). apply List.Forall_nil. }
  split; [exact H | exact (cache_key_short_texts _ H)].
Defined.

Lemma clean_text_identity_on_clean_witness :
  Forall (fun c => is_markup c = false) (lit "Hello world")
  /\ single_spaced false (lit "Hello world") = true
  /\ (length (lit "Hello world") <= 500)%nat
  /\ _clean_text (lit "Hello world") = lit "Hello world".
Proof.
  assert (H1 : Forall (fun c => is_markup c = false) (lit "Hello world")).
  { repeat (apply List.Forall_cons; [reflexivity |]). apply List.Forall_nil. }
  assert (H2 : single_spaced false (lit "Hello world") = true)
    by reflexivity.
  assert (H3 : forall c, head (lit "Hello world") = Some c
                         \/ last (lit "Hello world") = Some c ->
                         isspace c = false).
  { intros c [H | H]; injection H as <-; reflexivity. }
  assert (H4 : (length (lit "Hello world") <= 500)%nat) by (simpl; lia).
  split; [exact H1 |]. split; [exact H2 |]. split; [exact H4 |].
  exact (clean_text_identity_on_clean _ H1 H2 H3 H4).
Defined.

Lemma numeric_similarity_all_zero_witness :
  Forall (Forall (fun v => v == 0)%Q) [[0%Q]; [0%Q]]
  /\ (_calculate_numeric_similarity (finite_values [[0%Q]; [0%Q]]) == 0)%Q.
Proof.
  assert (H : Forall (Forall (fun v => v == 0)%Q) [[0%Q]; [0%Q]]).
  { repeat (apply List.Forall_cons;
            [apply List.Forall_cons; [reflexivity | apply List.Forall_nil] |]).
    apply List.Forall_nil. }
  split; [exact H | exact (numeric_similarity_all_zero _ H)].
Defined.

Lemma best_similarity_shared_value_witness :
  Forall nonneg [Finite 100; Infinity] /\ Forall nonneg [Finite 7; Finite 100]
  /\ In (Finite 100) [Finite 100; Infinity]
  /\ In (Finite 100) [Finite 7; Finite 100] /\ (0 < 100)%Q
  /\ (best_similarity [Finite 100; Infinity] [Finite 7; Finite 100] == 1)%Q.
Proof.
  assert (H1 : Forall nonneg [Finite 100; Infinity]).
  { apply List.Forall_cons; [discriminate |].
    apply List.Forall_cons; [exact I | apply List.Forall_nil]. }
  assert (H2 : Forall nonneg [Finite 7; Finite 100]).
  { repeat (apply List.Forall_cons; [discriminate |]). apply List.Forall_nil. }
  assert (H3 : In (Finite 100) [Finite 100; Infinity]) by (simpl; auto).
  assert (H4 : In (Finite 100) [Finite 7; Finite 100]) by (simpl; auto).
  assert (H5 : (0 < 100)%Q) by reflexivity.
  repeat (split; [assumption |]).
  exact (best_similarity_shared_value _ _ _ H1 H2 H3 H4 H5).
Defined.

Lemma numeric_similarity_shared_value_witness :
  (2 <= length [[Finite 100; Finite 5]; [Infinity; Finite 100]])%nat
  /\ (0 < 100)%Q
  /\ Forall (fun numbers => Forall nonneg numbers /\ In (Finite 100) numbers)
            [[Finite 100; Finite 5]; [Infinity; Finite 100]]
  /\ (_calculate_numeric_similarity
        [[Finite 100; Finite 5]; [Infinity; Finite 100]] == 1)%Q.
Proof.
  assert (H1 : (2 <= length [[Finite 100; Finite 5];
                             [Infinity; Finite 100]])%nat)
    by (simpl; lia).
  assert (H2 : (0 < 100)%Q) by reflexivity.
  assert (H3 : Forall (fun numbers => Forall nonneg numbers
                                      /\ In (Finite 100) numbers)
                      [[Finite 100; Finite 5]; [Infinity; Finite 100]]).
  { apply List.Forall_cons.
    { split; [| simpl; auto].
      repeat (apply List.Forall_cons; [discriminate |]). apply List.Forall_nil. }
    apply List.Forall_cons; [| apply List.Forall_nil].
    split; [| simpl; auto].
    apply List.Forall_cons; [exact I |].
    apply List.Forall_cons; [discriminate | apply List.Forall_nil]. }
  repeat (split; [assumption |]).
  exact (numeric_similarity_shared_value _ _ H1 H2 H3).
Defined.

Lemma numeric_similarity_range_floor_witness :
  (0 < 1)%Q
  /\ Forall (Forall (fun v => 1 <= v /\ v <= 4)%Q) [[1%Q; 2%Q]; [4%Q]]
  /\ (_calculate_numeric_similarity (finite_values [[1%Q; 2%Q]; [4%Q]]) == 0
      \/ 1 / 4 <= _calculate_numeric_similarity
                    (finite_values [[1%Q; 2%Q]; [4%Q]]))%Q.
Proof.
  assert (H1 : (0 < 1)%Q) by reflexivity.
  assert (H2 : Forall (Forall (fun v => 1 <= v /\ v <= 4)%Q)
                      [[1%Q; 2%Q]; [4%Q]]).
  { repeat (apply List.Forall_cons;
            [repeat (apply List.Forall_cons; [split; discriminate |]);
             apply List.Forall_nil |]).
    apply List.Forall_nil. }
  split; [exact H1 |]. split; [exact H2 |].
  exact (numeric_similarity_range_floor 1 4 _ H1 H2).
Defined.

Lemma ascii_decimal_digit (c v : N) :
  ascii_decimal c = Some v -> (v <= 9)%N.
Proof.
  unfold ascii_decimal.
  destruct ((48 <=? c)%N && (c <=? 57)%N) eqn:E; [| discriminate].
  apply andb_prop in E as [E1 E2]. apply N.leb_le in E1, E2.
  intros [= <-]. lia.
Qed.

Lemma date_similarity_floor_witness :
  (forall c v, @decimal ascii_tables c = Some v -> (v <= 9)%N)
  /\ (_calculate_numeric_similarity
        (finite_values
           (map (@extract_dates ascii_tables)
                [[(lit "DATE", lit "in 2001")];
                 [(lit "DATE", lit "by 2099")]]))
      == 0
      \/ 2000 # 2099
         <= _calculate_numeric_similarity
              (finite_values
                 (map (@extract_dates ascii_tables)
                      [[(lit "DATE", lit "in 2001")];
                       [(lit "DATE", lit "by 2099")]])))%Q.
Proof.
  split; [exact ascii_decimal_digit |].
  exact (proj2 (@date_similarity_floor ascii_tables ascii_decimal_digit
                  [[(lit "DATE", lit "in 2001")];
                   [(lit "DATE", lit "by 2099")]])).
Defined.


Lemma measure_consensus_sandwich_witness :
  @pairwise axis_models dot
  /\ (2 <= length [lit "yes"; lit "no"])%nat
  /\ snd (@_get_embeddings axis_models ∅ [lit "yes"; lit "no"])
     = Some [[1%Q; 0%Q]; [1%Q; 0%Q]]
  /\ (0 <= mean (pairs_flat (fun a b => [dot a b])
                            [[1%Q; 0%Q]; [1%Q; 0%Q]]))%Q
  /\ (Qmin 1 (0.5 * mean (pairs_flat (fun a b => [dot a b])
                                     [[1%Q; 0%Q]; [1%Q; 0%Q]]))
      <= fst (@measure_consensus ascii_tables axis_models ∅
                [lit "yes"; lit "no"]))%Q.
Proof.
  assert (H1 : (2 <= length [lit "yes"; lit "no"])%nat) by (simpl; lia).
  assert (H2 : snd (@_get_embeddings axis_models ∅ [lit "yes"; lit "no"])
               = Some [[1%Q; 0%Q]; [1%Q; 0%Q]]) by reflexivity.
  assert (H3 : (0 <= mean (pairs_flat (fun a b => [dot a b])
                                      [[1%Q; 0%Q]; [1%Q; 0%Q]]))%Q)
    by (vm_compute; discriminate).
  split; [exact axis_models_pairwise |]. split; [exact H1 |].
  split; [exact H2 |]. split; [exact H3 |].
  exact (proj1 (proj2 (@measure_consensus_sandwich ascii_tables axis_models
                         dot ∅ _ _ axis_models_pairwise H1 H2) H3)).
Defined.

Lemma single_word_counts_witness :
  @lower ascii_tables (lit "Nothing") <> []
  /\ Forall (fun c => @is_word ascii_tables c = true)
            (@lower ascii_tables (lit "Nothing"))
  /\ @negation_count ascii_tables (lit "Nothing") = 0%nat.
Proof.
  assert (H1 : @lower ascii_tables (lit "Nothing") <> []) by discriminate.
  assert (H2 : Forall (fun c => @is_word ascii_tables c = true)
                      (@lower ascii_tables (lit "Nothing"))).
  { repeat (apply List.Forall_cons; [reflexivity |]). apply List.Forall_nil. }
  split; [exact H1 |]. split; [exact H2 |].
  exact (proj1 (@single_word_counts ascii_tables (lit "Nothing") H1 H2)).
Defined.

Lemma main_plain_text_witness :
  strip (lit " hello world ") <> []
  /\ sample_loads (strip (lit " hello world ")) = JSONDecodeError
  /\ exists score,
       @main ascii_tables sample_loads (Some axis_models)
         (lit " hello world ") = Success score 1
       /\ (score == 1)%Q.
Proof.
  assert (H1 : strip (lit " hello world ") <> []) by discriminate.
  assert (H2 : sample_loads (strip (lit " hello world ")) = JSONDecodeError)
    by reflexivity.
  split; [exact H1 |]. split; [exact H2 |].
  exact (@main_plain_text ascii_tables sample_loads axis_models _ H1 H2).
Defined.

Lemma main_success_record_witness :
  @main ascii_tables sample_loads (Some axis_models) sample_request
  = Success (round4 1) 2
  /\ (1 <= 2)%nat /\ (0 <= round4 1 /\ round4 1 <= 1)%Q.
Proof.
  assert (H : @main ascii_tables sample_loads (Some axis_models)
                sample_request = Success (round4 1) 2)
    by (vm_compute; reflexivity).
  split; [exact H |].
  destruct (@main_success_record ascii_tables sample_loads _ _ _ _ H)
    as (Hn & Hscore & _).
  split; [exact Hn | exact Hscore].
Defined.

Lemma main_scores_responses_witness :
  strip sample_request <> []
  /\ sample_loads (strip sample_request)
     = Loaded (JObj [(lit "responses",
                      JArr [JStr (lit "yes"); JStr (lit "no")])])
  /\ dict_get [(lit "responses", JArr [JStr (lit "yes"); JStr (lit "no")])]
       (lit "responses") (JArr [])
     = JArr (map JStr [lit "yes"; lit "no"])
  /\ [lit "yes"; lit "no"] <> []
  /\ @main ascii_tables sample_loads (Some axis_models) sample_request
     = Success (round4 (fst (@measure_consensus ascii_tables axis_models ∅
                               [lit "yes"; lit "no"]))) 2.
Proof.
  assert (H1 : strip sample_request <> []) by discriminate.
  assert (H2 : sample_loads (strip sample_request)
               = Loaded (JObj [(lit "responses",
                                JArr [JStr (lit "yes"); JStr (lit "no")])]))
    by reflexivity.
  assert (H3 : dict_get
                 [(lit "responses", JArr [JStr (lit "yes"); JStr (lit "no")])]
                 (lit "responses") (JArr [])
               = JArr (map JStr [lit "yes"; lit "no"])) by reflexivity.
  assert (H4 : [lit "yes"; lit "no"] <> []) by discriminate.
  split; [exact H1 |]. split; [exact H2 |]. split; [exact H3 |].
  split; [exact H4 |].
  exact (proj1 (@main_scores_responses ascii_tables sample_loads axis_models
                  _ _ _ H1 H2 H3 H4)).
Defined.

Lemma main_engine_after_input_witness :
  @main ascii_tables sample_loads None (lit "   ") <> EngineFailure
  /\ @main ascii_tables sample_loads (Some axis_models) (lit "   ")
     = @main ascii_tables sample_loads None (lit "   ").
Proof.
  assert (H : @main ascii_tables sample_loads None (lit "   ")
              <> EngineFailure) by discriminate.
  split; [exact H |].
  exact (@main_engine_after_input ascii_tables sample_loads
           (Some axis_models) _ H).
Defined.
